(** * HASH entity graph: ontology identifiers and metadata, the org
      membership link, the contents of a page, the ontology queries, and
      the versioned graph store with its subgraph resolver.

    Layout: the embedded definitions come first, one module per source
    file or component, then the predicates and example data of the
    statements; the lemmas and theorems follow. *)

From Stdlib Require Import ZArith Lia Bool.
From Stdlib Require Import Ascii String DecimalString.
From Stdlib Require DecimalZ.
From stdpp Require Import base option list strings gmap.

Local Open Scope string_scope.
Local Open Scope Z_scope.

(* ===================================================================== *)
(** ** Thrown errors                                                      *)
(* ===================================================================== *)

(** A TypeScript function that may [throw] returns [Throw e]; a normal
    return is [Return v]. *)
Inductive Completion (E A : Type) : Type :=
  | Return (value : A)
  | Throw (error : E).
Arguments Return {E A} value.
Arguments Throw {E A} error.

(** Sequencing: a throw in the first statement skips the rest. With these
    instances stdpp's notation [x ← c; k] reads as [const x = c; k]. *)
#[global] Instance Completion_ret {E} : MRet (Completion E) :=
  fun A v => Return v.
#[global] Instance Completion_bind {E} : MBind (Completion E) :=
  fun A B k c =>
    match c with
    | Return v => k v
    | Throw e => Throw e
    end.

(* ===================================================================== *)
(** ** JavaScript values, as far as the type guards inspect them          *)
(* ===================================================================== *)

Module Js.

(** A JS [number]: a dyadic rational [mantissa * 2 ^ exponent], or one of
    the three special values. *)
Inductive number : Type :=
  | Finite (mantissa exponent : Z)
  | NaN
  | Infinity (negative : bool).

Definition ofZ (z : Z) : number := Finite z 0.

(** [Number.isInteger]: finite and without fractional part. *)
Definition isInteger (x : number) : bool :=
  match x with
  | Finite m e =>
      if 0 <=? e then true else (m mod 2 ^ (- e) =? 0)
  | NaN => false
  | Infinity _ => false
  end.

Inductive value : Type :=
  | Undefined
  | Null
  | Boolean (b : bool)
  | Number (x : number)
  | Str (s : string)
  | Object (reference : nat).

(** An object seen through its properties: [o !! k] is [Some v] when the
    property [k] exists ([k in o]) with value [v]. *)
Abbreviation object := (gmap string value).

(** [k in o] *)
Definition has (k : string) (o : object) : bool :=
  match o !! k with Some _ => true | None => false end.

(** [o.k], which is [undefined] for a property that does not exist. *)
Definition get (k : string) (o : object) : value :=
  match o !! k with Some v => v | None => Undefined end.

(** [typeof v === "string"] *)
Definition isString (v : value) : bool :=
  match v with Str _ => true | _ => false end.

(** [typeof v === "number"] *)
Definition isNumber (v : value) : bool :=
  match v with Number _ => true | _ => false end.

(** Rendering of an integer inside a template literal: the decimal
    digits, with a leading minus sign below zero (what JavaScript prints
    for an integer of magnitude below 10^21; version numbers are far
    below). *)
Definition integerToString (z : Z) : string :=
  NilEmpty.string_of_int (Z.to_int z).

End Js.

(* ===================================================================== *)
(** ** Ontology element identifiers and metadata
       (the ontology element type definitions of hash-subgraph)          *)
(* ===================================================================== *)

Module OntologyTypes.

Definition BaseUrl := string.
Definition VersionedUrl := string.
Definition OwnedById := string.
Definition Timestamp := string.

(** [type OntologyTypeRecordId = { baseUrl: BaseUrl; version: number }],
    the version being an integer. *)
Record OntologyTypeRecordId : Type := {
  baseUrl : BaseUrl;
  version : Z;
}.

Definition ontologyTypeRecordIdToVersionedUrl
    (ontologyTypeRecordId : OntologyTypeRecordId) : VersionedUrl :=
  baseUrl ontologyTypeRecordId +:+ "v/"
    +:+ Js.integerToString (version ontologyTypeRecordId).

(** The result of [validateBaseUrl], of @blockprotocol/type-system. *)
Inductive ValidationResult : Type :=
  | Ok (inner : BaseUrl)
  | Err (reason : string).

Definition isErr (r : ValidationResult) : bool :=
  match r with Err _ => true | Ok _ => false end.

(** [validateBaseUrl(v).type !== "Err"] where [v] passed the
    [typeof v === "string"] test just before. *)
Definition validatesAsBaseUrl
    (validateBaseUrl : string -> ValidationResult) (v : Js.value) : bool :=
  match v with
  | Js.Str s => negb (isErr (validateBaseUrl s))
  | _ => false
  end.

Definition isOntologyTypeRecordId
    (validateBaseUrl : string -> ValidationResult)
    (editionId : Js.object) : bool :=
  Js.has "baseId" editionId &&
  Js.isString (Js.get "baseId" editionId) &&
  validatesAsBaseUrl validateBaseUrl (Js.get "baseId" editionId) &&
  Js.has "version" editionId &&
  Js.isNumber (Js.get "version" editionId) &&
  match Js.get "version" editionId with
  | Js.Number x => Js.isInteger x
  | _ => false
  end.

(** The shape the type [OntologyTypeRecordId] declares: a string
    [baseUrl] that [validateBaseUrl] accepts and an integer [version]. *)
Definition hasRecordIdShape
    (validateBaseUrl : string -> ValidationResult)
    (o : Js.object) : Prop :=
  exists (b : string) (x : Js.number),
    o !! "baseUrl" = Some (Js.Str b) /\
    isErr (validateBaseUrl b) = false /\
    o !! "version" = Some (Js.Number x) /\
    Js.isInteger x = true.

(** The object [{ baseUrl, version }] of a record id. *)
Definition recordIdObject (r : OntologyTypeRecordId) : Js.object :=
  <["baseUrl" := Js.Str (baseUrl r)]>
    (<["version" := Js.Number (Js.ofZ (version r))]> ∅).

(** *** Metadata *)

Record ProvenanceMetadata : Type := { recordCreatedById : string }.

Inductive UpperTemporalBound : Type :=
  | ExclusiveLimited (limit : Timestamp)
  | Unbounded.

Record TransactionTime : Type := {
  start : Timestamp;               (* InclusiveLimitedTemporalBound *)
  end_ : UpperTemporalBound;
}.

Record TemporalVersioning : Type := { transactionTime : TransactionTime }.

(** The [custom] object of a metadata value as it exists at run time.
    [OwnedOntologyElementMetadata] requires [ownedById],
    [ExternalOntologyElementMetadata] requires [fetchedAt]; a field that
    is absent reads as [undefined], here [None]. *)
Record Custom : Type := {
  ownedById : option OwnedById;
  fetchedAt : option Timestamp;
  provenance : ProvenanceMetadata;
  temporalVersioning : TemporalVersioning;
}.

Record Metadata : Type := {
  recordId : OntologyTypeRecordId;
  custom : Custom;
}.

(** Structural membership in each of the two object types. *)
Definition hasOwnedShape (m : Metadata) : Prop :=
  is_Some (ownedById (custom m)).
Definition hasExternalShape (m : Metadata) : Prop :=
  is_Some (fetchedAt (custom m)).

(** [OntologyElementMetadata =
      OwnedOntologyElementMetadata | ExternalOntologyElementMetadata] *)
Definition OntologyElementMetadata (m : Metadata) : Prop :=
  hasOwnedShape m \/ hasExternalShape m.

(** [x !== undefined] for an optional field. *)
Definition defined {A} (x : option A) : bool :=
  match x with Some _ => true | None => false end.

Definition isExternalOntologyElementMetadata (metadata : Metadata) : bool :=
  defined (fetchedAt (custom metadata)).

Definition isOwnedOntologyElementMetadata (metadata : Metadata) : bool :=
  defined (ownedById (custom metadata)).

End OntologyTypes.

(* ===================================================================== *)
(** ** The temporal versioning engine                                     *)
(* ===================================================================== *)

Module Temporal.

Local Open Scope nat_scope.

(** Instants of the transaction and of the decision time axis, in a
    total order. *)
Abbreviation Timestamp := nat.

Inductive TemporalBound : Type :=
  | Inclusive (t : Timestamp)
  | Exclusive (t : Timestamp)
  | Unbounded.

Record Interval : Type := {
  lowerBound : TemporalBound;
  upperBound : TemporalBound;
}.

Definition afterLower (b : TemporalBound) (t : Timestamp) : bool :=
  match b with
  | Inclusive a => a <=? t
  | Exclusive a => a <? t
  | Unbounded => true
  end.

Definition beforeUpper (b : TemporalBound) (t : Timestamp) : bool :=
  match b with
  | Inclusive a => t <=? a
  | Exclusive a => t <? a
  | Unbounded => true
  end.

(** [Inclusive a] and [Exclusive b] bound [[a, b)]. *)
Definition contains (i : Interval) (t : Timestamp) : bool :=
  afterLower (lowerBound i) t && beforeUpper (upperBound i) t.

Definition overlap (i j : Interval) : Prop :=
  exists t, contains i t = true /\ contains j t = true.

(** An unbounded upper bound: still current. *)
Definition isOpen (i : Interval) : bool :=
  match upperBound i with Unbounded => true | _ => false end.

(** One version of a record. *)
Record Versioned (I P : Type) : Type := {
  identity : I;
  payload : P;
  decisionTime : Interval;
  transactionTime : Interval;
}.
Arguments identity {I P} _.
Arguments payload {I P} _.
Arguments decisionTime {I P} _.
Arguments transactionTime {I P} _.

Inductive TemporalError : Type := NotFound.

Section Engine.

Context {I P : Type} `{EqDecision I}.

(** All stored versions, oldest first. *)
Definition History : Type := list (Versioned I P).

Definition isOpenFor (i : I) (v : Versioned I P) : bool :=
  bool_decide (identity v = i) && isOpen (transactionTime v).

(** Modelled from the spec: [open(record, decisionInterval)] of the
    Temporal Versioning Engine, whose code is not among the sources.
    The new version has the transaction-time lower bound [now], an
    unbounded upper bound and the decision-time interval given. *)
Definition openVersion (i : I) (p : P) (decisionInterval : Interval)
    (now : Timestamp) : Versioned I P :=
  {| identity := i;
     payload := p;
     decisionTime := decisionInterval;
     transactionTime :=
       {| lowerBound := Inclusive now; upperBound := Unbounded |} |}.

Definition open (i : I) (p : P) (decisionInterval : Interval)
    (now : Timestamp) (h : History) : History :=
  (h ++ [openVersion i p decisionInterval now])%list.

Definition closeVersion (v : Versioned I P) (at_ : Timestamp)
  : Versioned I P :=
  {| identity := identity v;
     payload := payload v;
     decisionTime := decisionTime v;
     transactionTime :=
       {| lowerBound := lowerBound (transactionTime v);
          upperBound := Exclusive at_ |} |}.

(** Modelled from the spec: [close(identity, at)], not among the
    sources. It finds the version of [identity] that is open in
    transaction time and sets its upper bound to [at]; [NotFound] when
    no version is open. *)
Fixpoint close (i : I) (at_ : Timestamp) (h : History)
  : Completion TemporalError History :=
  match h with
  | [] => Throw NotFound
  | v :: rest =>
      if isOpenFor i v then Return (closeVersion v at_ :: rest)
      else rest' ← close i at_ rest; Return (v :: rest')
  end.

(** Modelled from the spec: [pinnedAt(identity, transactionTime,
    decisionTime)], not among the sources: the version both of whose
    intervals contain the instants given, if any. *)
Definition pinnedAt (i : I) (transactionInstant decisionInstant : Timestamp)
    (h : History) : option (Versioned I P) :=
  find (fun v => bool_decide (identity v = i)
                 && contains (transactionTime v) transactionInstant
                 && contains (decisionTime v) decisionInstant) h.

(** The version of [i] that is current. *)
Definition current (i : I) (h : History) : option (Versioned I P) :=
  find (isOpenFor i) h.

End Engine.

End Temporal.

(* ===================================================================== *)
(** ** Entities, link entities and the graph store                        *)
(* ===================================================================== *)

Module Graph.
Import Temporal.

Abbreviation Uuid := nat.
Abbreviation OwnedById := Uuid.
Abbreviation EntityUuid := Uuid.
Abbreviation AccountId := Uuid.
Definition VersionedUrl := string.

(** An entity uuid scoped to its owner. *)
Abbreviation EntityId := (OwnedById * EntityUuid)%type.

Record EntityRecordId : Type := {
  entityId : EntityId;
  editionId : Timestamp;
}.

Record EntityMetadata : Type := {
  recordId : EntityRecordId;
  entityTypeId : VersionedUrl;
}.

Definition PropertyObject := list (string * Js.value).

Record LinkData : Type := {
  leftEntityId : EntityId;
  rightEntityId : EntityId;
}.

Record Entity : Type := {
  metadata : EntityMetadata;
  properties : PropertyObject;
  linkData : option LinkData;
}.

(** [LinkEntity]: an entity whose [linkData] is not optional. *)
Record LinkEntity : Type := {
  linkMetadata : EntityMetadata;
  linkProperties : PropertyObject;
  linkEnds : LinkData;
}.

Definition entityOfLink (l : LinkEntity) : Entity :=
  {| metadata := linkMetadata l;
     properties := linkProperties l;
     linkData := Some (linkEnds l) |}.

Record EntityTypeSchema : Type := { id : VersionedUrl }.      (* [$id] *)
Record EntityTypeWithMetadata : Type := { schema : EntityTypeSchema }.

(** The errors of lib/error that the functions below throw.
    [EntityTypeMismatchError(entityId, expectedEntityTypeId,
    actualEntityTypeId)] keeps its three constructor arguments. *)
Inductive GraphError : Type :=
  | EntityTypeMismatchError
      (entityId : EntityId)
      (expectedEntityTypeId actualEntityTypeId : VersionedUrl)
  | NotFoundError (entityId : EntityId)
  | ValidationError (violations : list string).

(** The graph store: every version of every entity, the transaction
    clock, and the next entity uuid to give out. *)
Record GraphStore : Type := {
  versions : list (Versioned EntityId Entity);
  clock : Timestamp;
  nextUuid : Uuid;
}.

Definition emptyStore : GraphStore :=
  {| versions := []; clock := 0%nat; nextUuid := 0%nat |}.

(** An [ImpureGraphFunction]: it reads and writes the graph behind
    [ctx.graphApi] and may throw. *)
Definition Impure (A : Type) : Type :=
  GraphStore -> Completion GraphError (A * GraphStore).

Definition pureG {A} (c : Completion GraphError A) : Impure A :=
  fun st =>
    match c with
    | Return v => Return (v, st)
    | Throw e => Throw e
    end.

Definition bindG {A B} (m : Impure A) (k : A -> Impure B) : Impure B :=
  fun st =>
    match m st with
    | Return (v, st') => k v st'
    | Throw e => Throw e
    end.

(** What lies behind [ctx.graphApi] and is left open here: the Type
    Validator, as the list of the violations it finds, and the check of
    a link type's destination constraints against two endpoints (the
    error naming the expected and the actual type when it fails). *)
Record ImpureGraphContext : Type := {
  validate : PropertyObject -> VersionedUrl -> list string;
  checkLinkEndpoints :
    EntityTypeWithMetadata -> Entity -> Entity -> option GraphError;
}.

(** Decision time defaults to now. *)
Definition fromNow (now : Timestamp) : Interval :=
  {| lowerBound := Inclusive now; upperBound := Unbounded |}.

(** Modelled from the spec: [getLatestEntityById], absent from the
    sources: the current version of the entity, [NotFound] when it has
    none (it never existed, or is archived). *)
Definition getLatestEntityById (entityId : EntityId) : Impure Entity :=
  fun st =>
    match current entityId (versions st) with
    | Some v => Return (payload v, st)
    | None => Throw (NotFoundError entityId)
    end.

(** The store after a new entity got its first version. *)
Definition persistNew (entity : Entity) (decisionInterval : Interval)
    (st : GraphStore) : GraphStore :=
  {| versions := open (entityId (recordId (metadata entity))) entity
                   decisionInterval (clock st) (versions st);
     clock := S (clock st);
     nextUuid := S (nextUuid st) |}.

Record CreateEntityParams : Type := {
  ce_properties : PropertyObject;
  ce_entityTypeId : VersionedUrl;
  ce_ownedById : OwnedById;
  ce_actorId : AccountId;
  ce_decisionTime : option Interval;
}.

(** Modelled from the spec: [createEntity] of the Graph Store, whose
    code is not among the sources. It validates the properties against
    the entity type and then opens a new version, under a new entity
    id; decision time is from now on unless an interval is supplied; a
    validation error comes before any mutation. *)
Definition createEntity (ctx : ImpureGraphContext)
    (params : CreateEntityParams) : Impure Entity :=
  fun st =>
    match validate ctx (ce_properties params) (ce_entityTypeId params) with
    | [] =>
        let entity :=
          {| metadata :=
               {| recordId :=
                    {| entityId := (ce_ownedById params, nextUuid st);
                       editionId := clock st |};
                  entityTypeId := ce_entityTypeId params |};
             properties := ce_properties params;
             linkData := None |} in
        Return (entity,
                persistNew entity
                  (default (fromNow (clock st)) (ce_decisionTime params)) st)
    | violations => Throw (ValidationError violations)
    end.

Definition withProperties (entity : Entity) (newProperties : PropertyObject)
    (now : Timestamp) : Entity :=
  {| metadata :=
       {| recordId :=
            {| entityId := entityId (recordId (metadata entity));
               editionId := now |};
          entityTypeId := entityTypeId (metadata entity) |};
     properties := newProperties;
     linkData := linkData entity |}.

(** Modelled from the spec: [updateEntity], not among the sources. It
    closes the current version and opens a new one, both at the same
    transaction time. *)
Definition updateEntity (ctx : ImpureGraphContext) (entityId : EntityId)
    (newProperties : PropertyObject) (actor : AccountId) : Impure Entity :=
  fun st =>
    match current entityId (versions st),
          close entityId (clock st) (versions st) with
    | Some v, Return closed =>
        let entity := withProperties (payload v) newProperties (clock st) in
        Return (entity,
                {| versions := open entityId entity (fromNow (clock st))
                                 (clock st) closed;
                   clock := S (clock st);
                   nextUuid := nextUuid st |})
    | _, _ => Throw (NotFoundError entityId)
    end.

(** Modelled from the spec: [archiveEntity], not among the sources. It
    closes the current version and alters no properties. *)
Definition archiveEntity (ctx : ImpureGraphContext) (entityId : EntityId)
    (actor : AccountId) : Impure unit :=
  fun st =>
    match close entityId (clock st) (versions st) with
    | Return closed =>
        Return (tt, {| versions := closed;
                       clock := S (clock st);
                       nextUuid := nextUuid st |})
    | Throw _ => Throw (NotFoundError entityId)
    end.

Record CreateLinkEntityParams : Type := {
  ownedById : OwnedById;
  linkEntityType : EntityTypeWithMetadata;
  leftEntityId_ : EntityId;
  rightEntityId_ : EntityId;
  properties_ : PropertyObject;
  actorId : AccountId;
}.

(** Modelled from the spec: [createLinkEntity] of
    graph/knowledge/primitive/link-entity, which is not among the
    sources. Besides the validation of [createEntity] it validates that
    neither endpoint is archived and that the link type's destination
    constraints admit the endpoints' current entity types, failing with
    [EntityTypeMismatchError] otherwise and persisting nothing; else it
    opens the first version of a new entity of the link type that
    designates the left and the right entity. *)
Definition createLinkEntity (ctx : ImpureGraphContext)
    (params : CreateLinkEntityParams) : Impure LinkEntity :=
  fun st =>
    match validate ctx (properties_ params)
            (id (schema (linkEntityType params))) with
    | [] =>
        match current (leftEntityId_ params) (versions st),
              current (rightEntityId_ params) (versions st) with
        | None, _ => Throw (NotFoundError (leftEntityId_ params))
        | _, None => Throw (NotFoundError (rightEntityId_ params))
        | Some leftVersion, Some rightVersion =>
            match checkLinkEndpoints ctx (linkEntityType params)
                    (payload leftVersion) (payload rightVersion) with
            | Some mismatch => Throw mismatch
            | None =>
                let linkEntity :=
                  {| linkMetadata :=
                       {| recordId :=
                            {| entityId := (ownedById params, nextUuid st);
                               editionId := clock st |};
                          entityTypeId :=
                            id (schema (linkEntityType params)) |};
                     linkProperties := properties_ params;
                     linkEnds :=
                       {| leftEntityId := leftEntityId_ params;
                          rightEntityId := rightEntityId_ params |} |} in
                Return (linkEntity,
                        persistNew (entityOfLink linkEntity)
                          (fromNow (clock st)) st)
            end
        end
    | violations => Throw (ValidationError violations)
    end.

(** Modelled from the spec: [getLinkEntityLeftEntity], absent from the
    sources: the entity the link designates as its left entity. *)
Definition getLinkEntityLeftEntity (ctx : ImpureGraphContext)
    (linkEntity : LinkEntity) : Impure Entity :=
  getLatestEntityById (leftEntityId (linkEnds linkEntity)).

(** Modelled from the spec: [getLinkEntityRightEntity], absent from the
    sources: the entity the link designates as its right entity. *)
Definition getLinkEntityRightEntity (ctx : ImpureGraphContext)
    (linkEntity : LinkEntity) : Impure Entity :=
  getLatestEntityById (rightEntityId (linkEnds linkEntity)).

(** The mutations of the Graph Store, as steps between stores. *)
Inductive mutation (ctx : ImpureGraphContext)
  : GraphStore -> GraphStore -> Prop :=
  | mutation_createEntity params st entity st' :
      createEntity ctx params st = Return (entity, st') ->
      mutation ctx st st'
  | mutation_updateEntity entityId newProperties actor st entity st' :
      updateEntity ctx entityId newProperties actor st
        = Return (entity, st') ->
      mutation ctx st st'
  | mutation_archiveEntity entityId actor st st' :
      archiveEntity ctx entityId actor st = Return (tt, st') ->
      mutation ctx st st'
  | mutation_createLinkEntity params st linkEntity st' :
      createLinkEntity ctx params st = Return (linkEntity, st') ->
      mutation ctx st st'.

(** The stores that mutations lead to from the empty one. *)
Inductive reachable (ctx : ImpureGraphContext) : GraphStore -> Prop :=
  | reachable_empty : reachable ctx emptyStore
  | reachable_step st st' :
      reachable ctx st -> mutation ctx st st' -> reachable ctx st'.

(** The temporal invariant: among the versions of one entity id no two
    transaction-time intervals overlap, and at most one is unbounded
    above. *)
Definition temporalInvariant (h : list (Versioned EntityId Entity)) : Prop :=
  forall (i j : nat) (v w : Versioned EntityId Entity),
    h !! i = Some v -> h !! j = Some w -> i <> j ->
    identity v = identity w ->
    ~ overlap (transactionTime v) (transactionTime w) /\
    ~ (isOpen (transactionTime v) = true /\
       isOpen (transactionTime w) = true).

End Graph.

(* ===================================================================== *)
(** ** apps/hash-api/src/graph/knowledge/system-types/org-membership.ts  *)
(* ===================================================================== *)

Module OrgMembership.
Import Graph.

(** The part of the [SYSTEM_TYPES] table this file reads. *)
Record SystemTypes : Type := {
  entityType_user : EntityTypeWithMetadata;
  entityType_org : EntityTypeWithMetadata;
  linkEntityType_orgMembership : EntityTypeWithMetadata;
}.

Record OrgMembership : Type := { linkEntity : LinkEntity }.

Section SystemTypes.

Variable SYSTEM_TYPES : SystemTypes.

(** Imported and not among the sources: the uuid part of an entity id,
    and the readers of ./user and ./org. *)
Variable extractEntityUuidFromEntityId : EntityId -> EntityUuid.
Variables User Org : Type.
Variable getUserFromEntity : Entity -> Completion GraphError User.
Variable getOrgFromEntity : Entity -> Completion GraphError Org.

Definition getOrgMembershipFromLinkEntity (linkEntity : LinkEntity)
  : Completion GraphError OrgMembership :=
  if negb (String.eqb
             (entityTypeId (linkMetadata linkEntity))
             (id (schema (linkEntityType_orgMembership SYSTEM_TYPES))))
  then
    Throw (EntityTypeMismatchError
             (entityId (recordId (linkMetadata linkEntity)))
             (id (schema (entityType_user SYSTEM_TYPES)))
             (entityTypeId (linkMetadata linkEntity)))
  else
    Return {| linkEntity := linkEntity |}.

Record CreateOrgMembershipParams : Type := {
  orgEntityId : EntityId;
  userEntityId : EntityId;
  actorId' : AccountId;
}.

Definition createOrgMembership (ctx : ImpureGraphContext)
    (params : CreateOrgMembershipParams) : Impure OrgMembership :=
  bindG
    (createLinkEntity ctx
       {| ownedById := extractEntityUuidFromEntityId (orgEntityId params);
          linkEntityType := linkEntityType_orgMembership SYSTEM_TYPES;
          leftEntityId_ := userEntityId params;
          rightEntityId_ := orgEntityId params;
          properties_ := [];
          actorId := actorId' params |})
    (fun linkEntity => pureG (getOrgMembershipFromLinkEntity linkEntity)).

Definition getOrgMembershipOrg (ctx : ImpureGraphContext)
    (orgMembership : OrgMembership) : Impure Org :=
  bindG
    (getLinkEntityRightEntity ctx (linkEntity orgMembership))
    (fun orgEntity => pureG (getOrgFromEntity orgEntity)).

Definition getOrgMembershipUser (ctx : ImpureGraphContext)
    (orgMembership : OrgMembership) : Impure User :=
  bindG
    (getLinkEntityLeftEntity ctx (linkEntity orgMembership))
    (fun userEntity => pureG (getUserFromEntity userEntity)).

End SystemTypes.

End OrgMembership.

(* ===================================================================== *)
(** ** packages/hash/backend/src/graphql/resolvers/pages/contents.ts     *)
(* ===================================================================== *)

Module PageContents.

(** An entry of a page's [contents] list. *)
Record ContentRef : Type := {
  namespaceId : string;
  entityId : string;
}.

Record DbBlock : Type := {
  blockNamespaceId : string;
  blockId : string;
  blockProperties : list (string * Js.value);
}.

(** [dataSources.db]: [getEntity] resolves to the entity, or to
    [undefined] when the store has none with that id in that namespace. *)
Record DBAdapter : Type := {
  getEntity : string -> string -> option DbBlock;
}.

(** [new ApolloError(message, code)] *)
Record ApolloError : Type := {
  message : string;
  code : string;
}.

Inductive ResolverError : Type :=
  | Apollo (error : ApolloError)
  | TypeError (reason : string).   (* destructuring of [undefined] *)

(** The callback of [entities.forEach((entity, i) => ...)], run from
    index [i] on. *)
Fixpoint forEachFound (contents : list ContentRef)
    (entities : list (option DbBlock)) (i : nat)
  : Completion ResolverError unit :=
  match entities with
  | [] => Return tt
  | entity :: rest =>
      match entity with
      | None =>
          match contents !! i with
          | Some c =>
              Throw (Apollo
                {| message := "entity " +:+ entityId c
                                +:+ " not found in namespace "
                                +:+ namespaceId c;
                   code := "NOT_FOUND" |})
          | None => Throw (TypeError "contents[i] is undefined")
          end
      | Some _ => forEachFound contents rest (S i)
      end
  end.

(** The resolver. Its result is the array [entities] itself, which the
    source returns under the cast [as DbBlock[]]. *)
Definition contents (dataSources_db : DBAdapter)
    (contents : list ContentRef)
  : Completion ResolverError (list (option DbBlock)) :=
  let entities :=
    map (fun c => getEntity dataSources_db (namespaceId c) (entityId c))
        contents in
  _ ← forEachFound contents entities 0%nat;
  Return entities.

End PageContents.

(* ===================================================================== *)
(** ** The subgraph resolver                                              *)
(* ===================================================================== *)

Module Subgraph.

Local Open Scope nat_scope.

(** The versioned identity of a vertex: the base url or entity id, and
    the revision. *)
Abbreviation VertexId := (string * nat)%type.

Inductive EdgeKind : Type :=
  | InheritsFrom
  | ConstrainsValuesOn
  | ConstrainsPropertiesOn
  | ConstrainsLinksOn
  | ConstrainsLinkDestinationsOn
  | HasLeftEntity
  | HasRightEntity.

Definition allEdgeKinds : list EdgeKind :=
  [ InheritsFrom; ConstrainsValuesOn; ConstrainsPropertiesOn;
    ConstrainsLinksOn; ConstrainsLinkDestinationsOn;
    HasLeftEntity; HasRightEntity ].

Record Edge : Type := {
  source : VertexId;
  kind : EdgeKind;
  target : VertexId;
}.

(** One depth per edge kind. *)
Record ResolveDepths : Type := {
  inheritsFrom : nat;
  constrainsValuesOn : nat;
  constrainsPropertiesOn : nat;
  constrainsLinksOn : nat;
  constrainsLinkDestinationsOn : nat;
  hasLeftEntity : nat;
  hasRightEntity : nat;
}.

Definition depthOf (d : ResolveDepths) (k : EdgeKind) : nat :=
  match k with
  | InheritsFrom => inheritsFrom d
  | ConstrainsValuesOn => constrainsValuesOn d
  | ConstrainsPropertiesOn => constrainsPropertiesOn d
  | ConstrainsLinksOn => constrainsLinksOn d
  | ConstrainsLinkDestinationsOn => constrainsLinkDestinationsOn d
  | HasLeftEntity => hasLeftEntity d
  | HasRightEntity => hasRightEntity d
  end.

Definition withDepth (d : ResolveDepths) (k : EdgeKind) (n : nat)
  : ResolveDepths :=
  match k with
  | InheritsFrom =>
      {| inheritsFrom := n;
         constrainsValuesOn := constrainsValuesOn d;
         constrainsPropertiesOn := constrainsPropertiesOn d;
         constrainsLinksOn := constrainsLinksOn d;
         constrainsLinkDestinationsOn := constrainsLinkDestinationsOn d;
         hasLeftEntity := hasLeftEntity d;
         hasRightEntity := hasRightEntity d |}
  | ConstrainsValuesOn =>
      {| inheritsFrom := inheritsFrom d;
         constrainsValuesOn := n;
         constrainsPropertiesOn := constrainsPropertiesOn d;
         constrainsLinksOn := constrainsLinksOn d;
         constrainsLinkDestinationsOn := constrainsLinkDestinationsOn d;
         hasLeftEntity := hasLeftEntity d;
         hasRightEntity := hasRightEntity d |}
  | ConstrainsPropertiesOn =>
      {| inheritsFrom := inheritsFrom d;
         constrainsValuesOn := constrainsValuesOn d;
         constrainsPropertiesOn := n;
         constrainsLinksOn := constrainsLinksOn d;
         constrainsLinkDestinationsOn := constrainsLinkDestinationsOn d;
         hasLeftEntity := hasLeftEntity d;
         hasRightEntity := hasRightEntity d |}
  | ConstrainsLinksOn =>
      {| inheritsFrom := inheritsFrom d;
         constrainsValuesOn := constrainsValuesOn d;
         constrainsPropertiesOn := constrainsPropertiesOn d;
         constrainsLinksOn := n;
         constrainsLinkDestinationsOn := constrainsLinkDestinationsOn d;
         hasLeftEntity := hasLeftEntity d;
         hasRightEntity := hasRightEntity d |}
  | ConstrainsLinkDestinationsOn =>
      {| inheritsFrom := inheritsFrom d;
         constrainsValuesOn := constrainsValuesOn d;
         constrainsPropertiesOn := constrainsPropertiesOn d;
         constrainsLinksOn := constrainsLinksOn d;
         constrainsLinkDestinationsOn := n;
         hasLeftEntity := hasLeftEntity d;
         hasRightEntity := hasRightEntity d |}
  | HasLeftEntity =>
      {| inheritsFrom := inheritsFrom d;
         constrainsValuesOn := constrainsValuesOn d;
         constrainsPropertiesOn := constrainsPropertiesOn d;
         constrainsLinksOn := constrainsLinksOn d;
         constrainsLinkDestinationsOn := constrainsLinkDestinationsOn d;
         hasLeftEntity := n;
         hasRightEntity := hasRightEntity d |}
  | HasRightEntity =>
      {| inheritsFrom := inheritsFrom d;
         constrainsValuesOn := constrainsValuesOn d;
         constrainsPropertiesOn := constrainsPropertiesOn d;
         constrainsLinksOn := constrainsLinksOn d;
         constrainsLinkDestinationsOn := constrainsLinkDestinationsOn d;
         hasLeftEntity := hasLeftEntity d;
         hasRightEntity := n |}
  end.

(** The hops a traversal can still make, over all edge kinds. *)
Definition totalDepth (d : ResolveDepths) : nat :=
  inheritsFrom d + constrainsValuesOn d + constrainsPropertiesOn d
  + constrainsLinksOn d + constrainsLinkDestinationsOn d
  + hasLeftEntity d + hasRightEntity d.

Record TemporalAxes : Type := {
  transactionInstant : nat;
  decisionInstant : nat;
}.

(** What the resolver reads, at a snapshot: the candidate vertices with
    the Query/Filter Engine's verdict on them, whether a vertex has a
    version at the pinned instants, and the stored edges of a kind that
    leave a vertex. *)
Record GraphView (Filter : Type) : Type := {
  candidates : list VertexId;
  evaluate : Filter -> VertexId -> bool;
  pinned : TemporalAxes -> VertexId -> bool;
  edgesFrom : EdgeKind -> VertexId -> list VertexId;
}.
Arguments candidates {Filter} _.
Arguments evaluate {Filter} _ _ _.
Arguments pinned {Filter} _ _ _.
Arguments edgesFrom {Filter} _ _ _.

(** A vertex of the frontier with the depths left for what lies behind. *)
Record Branch : Type := {
  vertex : VertexId;
  depths : ResolveDepths;
}.

Record Subgraph : Type := {
  roots : list VertexId;
  vertices : gset VertexId;
  edges : list Edge;
  resolveDepths : ResolveDepths;
  temporalAxes : TemporalAxes;
}.

Section Resolver.

Context {Filter : Type}.
Variable view : GraphView Filter.
Variable axes : TemporalAxes.

(** The edges of kind [k] followed from a branch, each with the branch
    behind it: the depth of [k] alone is one less there. A kind whose
    depth is 0 is not followed. *)
Definition follow (b : Branch) (k : EdgeKind) : list (Edge * Branch) :=
  match depthOf (depths b) k with
  | O => []
  | S d =>
      map (fun t =>
             ({| source := vertex b; kind := k; target := t |},
              {| vertex := t; depths := withDepth (depths b) k d |}))
          (edgesFrom view k (vertex b))
  end.

Definition hop (b : Branch) : list (Edge * Branch) :=
  flat_map (follow b) allEdgeKinds.

(** Modelled from the spec: steps (2) and (3) of the resolver's
    algorithm, whose code is not among the sources. From every branch of
    the frontier the edges of every kind with a depth above 0 are
    followed; a vertex discovered is pinned at the same temporal axes and,
    when it has a version there, becomes a branch of the next frontier.
    [n] counts the frontiers still to expand. *)
Fixpoint traverse (n : nat) (frontier : list Branch)
  : list VertexId * list Edge :=
  match n with
  | O => ([], [])
  | S n' =>
      let hops := flat_map hop frontier in
      let next := filter (fun b => pinned view axes (vertex b) = true)
                         (map snd hops) in
      let (found, followed) := traverse n' next in
      ((map vertex next ++ found)%list, (map fst hops ++ followed)%list)
  end.

(** Modelled from the spec: [resolve(rootFilter, resolveDepths,
    temporalAxes)] of the Subgraph Resolver, not among the sources.
    (1) the roots are the candidates the root filter accepts in the pinned
    view; (2, 3) the traversal; (4) the vertices form a set, so one reached
    twice is included once; (5) the edges kept are those both of whose
    endpoints are in the vertex set. *)
Definition resolve (rootFilter : Filter) (resolveDepths : ResolveDepths)
  : Subgraph :=
  let roots :=
    filter (fun v => evaluate view rootFilter v && pinned view axes v = true)
           (candidates view) in
  let (found, followed) :=
    traverse (totalDepth resolveDepths)
      (map (fun v => {| vertex := v; depths := resolveDepths |}) roots) in
  let vertices : gset VertexId := list_to_set (roots ++ found)%list in
  {| roots := roots;
     vertices := vertices;
     edges := filter (fun e => source e ∈ vertices /\ target e ∈ vertices)
                followed;
     resolveDepths := resolveDepths;
     temporalAxes := axes |}.

End Resolver.

End Subgraph.

(* ===================================================================== *)
(** ** The GraphQL operations that return ontology subgraphs
       (entity-type.queries.ts and the property type typedef)            *)
(* ===================================================================== *)

Module OntologyApi.

(** A GraphQL type reference: [Name], [Name!] or [[t]]. *)
Inductive GqlType : Type :=
  | Named (name : string)
  | NonNull (inner : GqlType)
  | ListOf (inner : GqlType).

(** [$name: type = default] in a query, [name: type] in a type
    definition. *)
Record InputValue : Type := {
  name : string;
  type : GqlType;
  defaultValue : option string;
}.

(** An argument [name: $variable] of the field a query selects. *)
Record Argument : Type := {
  argument : string;
  variable : string;
}.

(** [query operationName(variables) { field(arguments) { ... } }] *)
Record QueryDocument : Type := {
  operationName : string;
  variables : list InputValue;
  field : string;
  arguments : list Argument;
}.

(** [field(arguments): result] in [extend type Query]. *)
Record FieldDefinition : Type := {
  fieldName : string;
  fieldArguments : list InputValue;
  result : GqlType;
}.

Definition required (n : string) (t : string) : InputValue :=
  {| name := n; type := NonNull (Named t); defaultValue := None |}.

Definition passes (n : string) : Argument :=
  {| argument := n; variable := n |}.

Definition getEntityTypeQuery : QueryDocument :=
  {| operationName := "getEntityType";
     variables :=
       [ required "entityTypeId" "VersionedUrl";
         required "constrainsValuesOn" "OutgoingEdgeResolveDepthInput";
         required "constrainsPropertiesOn" "OutgoingEdgeResolveDepthInput";
         required "constrainsLinksOn" "OutgoingEdgeResolveDepthInput";
         required "constrainsLinkDestinationsOn" "OutgoingEdgeResolveDepthInput";
         required "inheritsFrom" "OutgoingEdgeResolveDepthInput" ];
     field := "getEntityType";
     arguments :=
       [ passes "entityTypeId";
         passes "constrainsValuesOn";
         passes "constrainsPropertiesOn";
         passes "constrainsLinksOn";
         passes "constrainsLinkDestinationsOn";
         passes "inheritsFrom" ] |}.

Definition queryEntityTypesQuery : QueryDocument :=
  {| operationName := "queryEntityTypes";
     variables :=
       [ required "constrainsValuesOn" "OutgoingEdgeResolveDepthInput";
         required "constrainsPropertiesOn" "OutgoingEdgeResolveDepthInput";
         required "constrainsLinksOn" "OutgoingEdgeResolveDepthInput";
         required "constrainsLinkDestinationsOn" "OutgoingEdgeResolveDepthInput";
         required "inheritsFrom" "OutgoingEdgeResolveDepthInput";
         {| name := "latestOnly"; type := Named "Boolean";
            defaultValue := Some "true" |};
         {| name := "includeArchived"; type := Named "Boolean";
            defaultValue := Some "false" |} ];
     field := "queryEntityTypes";
     arguments :=
       [ passes "constrainsValuesOn";
         passes "constrainsPropertiesOn";
         passes "constrainsLinksOn";
         passes "constrainsLinkDestinationsOn";
         passes "inheritsFrom";
         passes "latestOnly";
         passes "includeArchived" ] |}.

(** The two query fields of [propertyTypeTypedef]. *)
Definition getAllLatestPropertyTypes : FieldDefinition :=
  {| fieldName := "getAllLatestPropertyTypes";
     fieldArguments :=
       [ required "dataTypeResolveDepth" "Int";
         required "propertyTypeResolveDepth" "Int" ];
     result := NonNull (Named "Subgraph") |}.

Definition getPropertyType : FieldDefinition :=
  {| fieldName := "getPropertyType";
     fieldArguments :=
       [ required "propertyTypeId" "VersionedUri";
         required "dataTypeResolveDepth" "Int";
         required "propertyTypeResolveDepth" "Int" ];
     result := NonNull (Named "Subgraph") |}.

(** An operation as its callers see it: its name and the arguments it
    takes, each with its type. *)
Record Operation : Type := {
  operation : string;
  takes : list (string * GqlType);
}.

(** The type of the variable a query passes for an argument. *)
Definition typeOfVariable (q : QueryDocument) (v : string) : option GqlType :=
  type <$> find (fun d => String.eqb (name d) v) (variables q).

Definition operationOfQuery (q : QueryDocument) : Operation :=
  {| operation := field q;
     takes :=
       omap (fun a => pair (argument a) <$> typeOfVariable q (variable a))
            (arguments q) |}.

Definition operationOfField (f : FieldDefinition) : Operation :=
  {| operation := fieldName f;
     takes := map (fun d => (name d, type d)) (fieldArguments f) |}.

Definition subgraphOperations : list Operation :=
  [ operationOfQuery getEntityTypeQuery;
    operationOfQuery queryEntityTypesQuery;
    operationOfField getPropertyType;
    operationOfField getAllLatestPropertyTypes ].

(** The ontology edge kinds. *)
Inductive OntologyEdgeKind : Type :=
  | ConstrainsValuesOn
  | ConstrainsPropertiesOn
  | ConstrainsLinksOn
  | ConstrainsLinkDestinationsOn
  | InheritsFrom.

Definition edgeKindName (k : OntologyEdgeKind) : string :=
  match k with
  | ConstrainsValuesOn => "constrainsValuesOn"
  | ConstrainsPropertiesOn => "constrainsPropertiesOn"
  | ConstrainsLinksOn => "constrainsLinksOn"
  | ConstrainsLinkDestinationsOn => "constrainsLinkDestinationsOn"
  | InheritsFrom => "inheritsFrom"
  end.

(** The types of the arguments that an operation takes under a name. *)
Definition argumentTypes (op : Operation) (n : string) : list GqlType :=
  map snd (filter (fun a => fst a = n) (takes op)).

(** [Int] or [Int!]. *)
Definition isInteger (t : GqlType) : bool :=
  match t with
  | Named n => String.eqb n "Int"
  | NonNull (Named n) => String.eqb n "Int"
  | _ => false
  end.

End OntologyApi.

(* ===================================================================== *)
(** ** The Linear teams table: which workspaces each team syncs with
       (the component next to the entity type queries)                   *)
(* ===================================================================== *)

Module LinearTeams.

Local Open Scope nat_scope.

Abbreviation EntityId := string.

(** What the runtime throws on a property access on [undefined]. *)
Inductive JsError : Type :=
  | TypeError (reason : string).

(** [Array.prototype.map] with a callback that may throw. *)
Fixpoint mapC {A B} (f : A -> Completion JsError B) (l : list A)
  : Completion JsError (list B) :=
  match l with
  | [] => Return []
  | x :: rest =>
      y ← f x;
      ys ← mapC f rest;
      Return (y :: ys)
  end.

(** [Array.prototype.findIndex]; [None] stands for -1. *)
Fixpoint findIndex {A} (p : A -> bool) (l : list A) : option nat :=
  match l with
  | [] => None
  | x :: rest => if p x then Some 0 else S <$> findIndex p rest
  end.

(** [Array.prototype.includes] on strings. *)
Definition includes (x : string) (l : list string) : bool :=
  bool_decide (x ∈ l).

(** The elements of [l] in order, without those of [seen] and without
    repetitions: what inserting them into a [Set] that holds [seen]
    adds. *)
Fixpoint insertAll (seen : list string) (l : list string) : list string :=
  match l with
  | [] => []
  | x :: rest =>
      if includes x seen then insertAll seen rest
      else x :: insertAll (x :: seen) rest
  end.

(** [Array.from(new Set(l))] *)
Definition arrayFromSet (l : list string) : list string := insertAll [] l.

(** A team of a Linear organization; the fields are [id] and [name]. *)
Record LinearTeam : Type := {
  teamId : string;
  teamName : string;
}.

(** [GetLinearOrganizationQuery["getLinearOrganization"]]; the fields
    are [id], [name] and [teams]. *)
Record LinearOrganization : Type := {
  organizationId : string;
  organizationName : string;
  organizationTeams : list LinearTeam;
}.

(** [{ ...team, workspaceEntityIds }] *)
Record TeamWithWorkspaces : Type := {
  id : string;
  name : string;
  workspaceEntityIds : list EntityId;
}.

(** [LinearOrganizationTeamsWithWorkspaces] *)
Record LinearOrganizationTeamsWithWorkspaces : Type := {
  linearOrgId : string;          (* [id] *)
  linearOrgName : string;        (* [name] *)
  teams : list TeamWithWorkspaces;
}.

Record Entity : Type := {
  entityId : EntityId;           (* [metadata.recordId.entityId] *)
  properties : Js.object;
}.

Record SyncedWorkspace : Type := {
  workspaceEntity : Entity;
  linearTeamIds : list string;
}.

Record LinearIntegration : Type := {
  entity : Entity;
  syncedWithWorkspaces : list SyncedWorkspace;
}.

Inductive WorkspaceKind : Type := user | org.

(** [Org | MinimalUser], as far as the table reads it. *)
Record Workspace : Type := {
  kind : WorkspaceKind;
  workspaceId : EntityId;        (* [entityRecordId.entityId] *)
  label : string;                (* [name] or [preferredName] *)
}.

Record SyncWithWorkspace : Type := {
  workspaceEntityId : EntityId;
  syncedTeamIds : list string;   (* [linearTeamIds] *)
}.

Section LinearOrgIdKey.

(** [extractBaseUrl(types.propertyType.linearOrgId.propertyTypeId)], the
    property key under which an integration entity holds the id of its
    Linear organization; defined outside this file. *)
Variable linearOrgIdKey : string.

(** [entity.properties[key] === organization.id] *)
Definition isIntegrationOf (organization : LinearOrganization)
    (integration : LinearIntegration) : bool :=
  match properties (entity integration) !! linearOrgIdKey with
  | Some (Js.Str s) => String.eqb s (organizationId organization)
  | _ => false
  end.

(** [linearTeamIds.length === 0 || linearTeamIds.includes(team.id)] *)
Definition syncsWithTeam (team : LinearTeam) (s : SyncedWorkspace) : bool :=
  (length (linearTeamIds s) =? 0) || includes (teamId team) (linearTeamIds s).

(** The callback of [organization.teams.map]: [find(...)!] is [undefined]
    when no integration belongs to the organization, and reading
    [syncedWithWorkspaces] of it throws. *)
Definition withWorkspaces (linearIntegrations : list LinearIntegration)
    (organization : LinearOrganization) (team : LinearTeam)
  : Completion JsError TeamWithWorkspaces :=
  match find (isIntegrationOf organization) linearIntegrations with
  | None =>
      Throw (TypeError "Cannot read properties of undefined")
  | Some integration =>
      Return {| id := teamId team;
                name := teamName team;
                workspaceEntityIds :=
                  map (fun s => entityId (workspaceEntity s))
                      (filter (fun s => syncsWithTeam team s = true)
                              (syncedWithWorkspaces integration)) |}
  end.

Definition mapLinearOrganizationToLinearOrganizationTeamsWithWorkspaces
    (linearIntegrations : list LinearIntegration)
    (organization : LinearOrganization)
  : Completion JsError LinearOrganizationTeamsWithWorkspaces :=
  teams' ← mapC (withWorkspaces linearIntegrations organization)
                (organizationTeams organization);
  Return {| linearOrgId := organizationId organization;
            linearOrgName := organizationName organization;
            teams := teams' |}.

End LinearOrgIdKey.

(** The ids of the teams that sync with the workspace. *)
Definition teamsWith (workspaceEntityId : EntityId)
    (ts : list TeamWithWorkspaces) : list TeamWithWorkspaces :=
  filter (fun t => includes workspaceEntityId (workspaceEntityIds t) = true) ts.

Definition mapLinearOrganizationToSyncWithWorkspacesInputVariable
    (linearOrganization : LinearOrganizationTeamsWithWorkspaces)
    (possibleWorkspaces : list Workspace) : list SyncWithWorkspace :=
  map (fun w =>
         {| workspaceEntityId := workspaceId w;
            syncedTeamIds :=
              map id (teamsWith (workspaceId w) (teams linearOrganization)) |})
      (filter (fun w =>
                 existsb (fun t => includes (workspaceId w)
                                     (workspaceEntityIds t))
                         (teams linearOrganization) = true)
              possibleWorkspaces).

(** [possibleWorkspaces]: the authenticated user, then the organizations
    the user is a member of. *)
Definition possibleWorkspaces (authenticatedUser : Workspace)
    (memberOf : list Workspace) : list Workspace :=
  authenticatedUser :: memberOf.

(** The workspaces shown as selected in the row of the organization:
    those that every team syncs with. *)
Definition selectedForOrganization (possible : list Workspace)
    (linearOrganization : LinearOrganizationTeamsWithWorkspaces)
  : list EntityId :=
  filter (fun entityId =>
            length (teams linearOrganization) =
            length (teamsWith entityId (teams linearOrganization)))
         (map workspaceId possible).

(** The workspaces shown as selected in the row of a team. *)
Definition selectedForTeam (possible : list Workspace)
    (linearOrganization : LinearOrganizationTeamsWithWorkspaces)
    (linearTeamId : string) : list EntityId :=
  filter (fun entityId =>
            match find (fun t => String.eqb (id t) linearTeamId)
                       (teams linearOrganization) with
            | Some t => includes entityId (workspaceEntityIds t)
            | None => false
            end = true)
         (map workspaceId possible).

(** The new selection of a team:
    [Array.from(new Set([...kept, ...addedEntityIds]))]. *)
Definition reselect (current previousSelected entityIds : list EntityId)
  : list EntityId :=
  let addedEntityIds :=
    filter (fun e => includes e previousSelected = false) entityIds in
  let removedWorkspaceEntityIds :=
    filter (fun e => includes e entityIds = false) previousSelected in
  arrayFromSet
    (filter (fun e => includes e removedWorkspaceEntityIds = false) current
     ++ addedEntityIds)%list.

(** The state update of [handleSelectAllWorkspacesChange]; [prev] is the
    state it is applied to. When the organization is not in the state,
    [previousOrganization] is [undefined] and the filter over the possible
    workspaces, which are never none, throws on reading its teams. *)
Definition handleSelectAllWorkspacesChange
    (authenticatedUser : Workspace) (memberOf : list Workspace)
    (linearOrganization : LinearOrganizationTeamsWithWorkspaces)
    (entityIds : list EntityId)
    (prev : list LinearOrganizationTeamsWithWorkspaces)
  : Completion JsError (list LinearOrganizationTeamsWithWorkspaces) :=
  match findIndex (fun o => String.eqb (linearOrgId o)
                              (linearOrgId linearOrganization)) prev with
  | None => Throw (TypeError "Cannot read properties of undefined")
  | Some linearOrgIndex =>
      match prev !! linearOrgIndex with
      | None => Throw (TypeError "Cannot read properties of undefined")
      | Some previousOrganization =>
          let previousSelectedWorkspaceEntityIds :=
            filter (fun workspaceEntityId =>
                      length (teamsWith workspaceEntityId
                                (teams previousOrganization)) =
                      length (teams linearOrganization))
                   (map workspaceId
                      (possibleWorkspaces authenticatedUser memberOf)) in
          Return
            (take linearOrgIndex prev ++
             {| linearOrgId := linearOrgId previousOrganization;
                linearOrgName := linearOrgName previousOrganization;
                teams :=
                  map (fun team =>
                         {| id := id team;
                            name := name team;
                            workspaceEntityIds :=
                              reselect (workspaceEntityIds team)
                                previousSelectedWorkspaceEntityIds
                                entityIds |})
                      (teams linearOrganization) |}
             :: drop (S linearOrgIndex) prev)%list
      end
  end.

(** The state update of [handleSelectWorkspaceChange]. *)
Definition handleSelectWorkspaceChange
    (linearOrganization : LinearOrganizationTeamsWithWorkspaces)
    (linearTeamId : string) (entityIds : list EntityId)
    (prev : list LinearOrganizationTeamsWithWorkspaces)
  : Completion JsError (list LinearOrganizationTeamsWithWorkspaces) :=
  match findIndex (fun o => String.eqb (linearOrgId o)
                              (linearOrgId linearOrganization)) prev with
  | None => Throw (TypeError "Cannot read properties of undefined")
  | Some linearOrgIndex =>
      match prev !! linearOrgIndex with
      | None => Throw (TypeError "Cannot read properties of undefined")
      | Some previousOrganization =>
          match findIndex (fun t => String.eqb (id t) linearTeamId)
                          (teams previousOrganization) with
          | None => Throw (TypeError "Cannot read properties of undefined")
          | Some linearTeamIndex =>
              match teams previousOrganization !! linearTeamIndex with
              | None =>
                  Throw (TypeError "Cannot read properties of undefined")
              | Some previousTeam =>
                  let previousSelectedWorkspaceEntityIds :=
                    match find (fun t => String.eqb (id t) linearTeamId)
                               (teams previousOrganization) with
                    | Some t => workspaceEntityIds t
                    | None => []
                    end in
                  Return
                    (take linearOrgIndex prev ++
                     {| linearOrgId := linearOrgId previousOrganization;
                        linearOrgName := linearOrgName previousOrganization;
                        teams :=
                          (take linearTeamIndex (teams previousOrganization)
                           ++ {| id := id previousTeam;
                                 name := name previousTeam;
                                 workspaceEntityIds :=
                                   reselect (workspaceEntityIds previousTeam)
                                     previousSelectedWorkspaceEntityIds
                                     entityIds |}
                           :: drop (S linearTeamIndex)
                                (teams previousOrganization))%list |}
                     :: drop (S linearOrgIndex) prev)%list
              end
          end
      end
  end.

End LinearTeams.

(* ===================================================================== *)
(** ** The types table, which lists ontology types by their metadata     *)
(* ===================================================================== *)

Module TypesTable.
Import OntologyTypes.

Inductive ColumnId : Type :=
  | title
  | kind
  | namespaceShortname
  | archived.

(** [typesTableColumnIds] *)
Definition typesTableColumnIds : list ColumnId :=
  [title; kind; namespaceShortname; archived].

Record TypesTableColumn : Type := {
  id : ColumnId;
  columnTitle : string;          (* [title] *)
  width : Z;
  grow : option Z;
}.

Inductive RowKind : Type :=
  | entity_type
  | property_type
  | link_type
  | data_type.

(** ["all" | "entity-type" | "property-type" | "link-type" | "data-type"] *)
Inductive TableKind : Type :=
  | all
  | only (k : RowKind).

(** [String(row.kind)] *)
Definition rowKindName (k : RowKind) : string :=
  match k with
  | entity_type => "entity-type"
  | property_type => "property-type"
  | link_type => "link-type"
  | data_type => "data-type"
  end.

Record TypesTableRow : Type := {
  rowId : string;
  rowKind : RowKind;             (* [kind] *)
  typeId : VersionedUrl;
  rowTitle : string;             (* [title] *)
  external : bool;
  rowNamespaceShortname : option string;   (* [namespaceShortname?] *)
  rowArchived : bool;            (* [archived] *)
}.

Inductive SchemaKind : Type :=
  | entityType
  | propertyType
  | dataType.

Record Schema : Type := {
  schemaId : VersionedUrl;       (* [$id] *)
  schemaTitle : string;          (* [title] *)
  schemaKind : SchemaKind;       (* [kind] *)
}.

(** [EntityTypeWithMetadata | PropertyTypeWithMetadata |
     DataTypeWithMetadata] *)
Record TypeWithMetadata : Type := {
  schema : Schema;
  metadata : Metadata;
}.

(** A user or an org, as a namespace. *)
Record Namespace : Type := {
  accountId : string;
  shortname : option string;
}.

Record FilterState : Type := {
  includeArchived : bool;
  includeGlobal : bool;
}.

(** The state the table starts in. *)
Definition initialFilterState : FilterState :=
  {| includeArchived := true; includeGlobal := true |}.

(** [typesTableColumns] *)
Definition typesTableColumns (tableKind : TableKind)
  : list TypesTableColumn :=
  ({| id := title; columnTitle := "Title"; width := 250; grow := Some 2 |}
   :: match tableKind with
      | all =>
          [{| id := kind; columnTitle := "Type"; width := 200;
              grow := None |}]
      | only _ => []
      end
   ++ [ {| id := namespaceShortname; columnTitle := "Namespace";
           width := 200; grow := None |};
        {| id := archived; columnTitle := "Archived"; width := 200;
           grow := None |} ])%list.

(** [a !== b] on values that are a string or [undefined]. *)
Definition differ (a b : option string) : bool :=
  match a, b with
  | Some x, Some y => negb (String.eqb x y)
  | None, None => false
  | _, _ => true
  end.

Section Context.

(** From the contexts and hooks the component reads: the account of the
    active workspace, the lookup of the link types, the users and orgs
    (once both are loaded), and [isTypeArchived] of the entity types
    context. *)
Variable activeWorkspaceAccountId : option string.
Variable isLinkTypeLookup : option (gmap string bool).
Variable namespaces : option (list Namespace).
Variable isTypeArchived : TypeWithMetadata -> bool.

(** The callback of [types.map] in [filteredRows]. *)
Definition toRow (type : TypeWithMetadata) : TypesTableRow :=
  let isExternal :=
    if isExternalOntologyElementMetadata (metadata type) then true
    else differ (ownedById (custom (metadata type)))
                activeWorkspaceAccountId in
  let namespaceAccountId :=
    if isExternalOntologyElementMetadata (metadata type) then None
    else ownedById (custom (metadata type)) in
  let namespace :=
    match namespaces with
    | Some ns =>
        find (fun n => negb (differ (Some (accountId n)) namespaceAccountId))
             ns
    | None => None
    end in
  {| rowId := schemaId (schema type);
     typeId := schemaId (schema type);
     rowTitle := schemaTitle (schema type);
     rowKind :=
       match schemaKind (schema type) with
       | entityType =>
           match isLinkTypeLookup with
           | Some lookup =>
               match lookup !! schemaId (schema type) with
               | Some true => link_type
               | _ => entity_type
               end
           | None => entity_type
           end
       | propertyType => property_type
       | dataType => data_type
       end;
     external := isExternal;
     rowNamespaceShortname :=
       match namespace with
       | Some n => shortname n
       | None => None
       end;
     rowArchived := isTypeArchived type |}.

(** The callback of the [filter] in [filteredRows]. *)
Definition shown (filterState : FilterState) (row : TypesTableRow) : bool :=
  (if includeGlobal filterState then true else negb (external row)) &&
  (if includeArchived filterState then true else negb (rowArchived row)).

Definition filteredRows (types : list TypeWithMetadata)
    (filterState : FilterState) : list TypesTableRow :=
  filter (fun row => shown filterState row = true) (map toRow types).

End Context.

(** [new Error(message)] *)
Inductive Error : Type := MkError (message : string).

(** The two kinds of cell the table draws: the custom text-icon cell of
    the title, whose click leads to the type, and a text cell. *)
Inductive Cell : Type :=
  | TextIconCell (copyData value : string) (onClick : VersionedUrl)
  | TextCell (displayData data : string).

(** [array[index]] for an index that is a number: [undefined], here
    [None], outside of the array. *)
Definition at_ {A} (l : list A) (index : Z) : option A :=
  if index <? 0 then None else l !! Z.to_nat index.

Definition createGetCellContent (tableKind : TableKind)
    (rows : list TypesTableRow) (item : Z * Z)
  : Completion Error Cell :=
  let (colIndex, rowIndex) := item in
  match at_ rows rowIndex with
  | None => Throw (MkError "link not found")
  | Some row =>
      match at_ (typesTableColumns tableKind) colIndex with
      | None => Throw (MkError "column not found")
      | Some column =>
          match id column with
          | title =>
              Return (TextIconCell (rowTitle row) (rowTitle row) (typeId row))
          | kind =>
              Return (TextCell (rowKindName (rowKind row))
                               (rowKindName (rowKind row)))
          | namespaceShortname =>
              let value :=
                match rowNamespaceShortname row with
                | Some s => if String.eqb s "" then "" else "@" +:+ s
                | None => ""
                end in
              Return (TextCell value value)
          | archived =>
              let value := if rowArchived row then "Yes" else "No" in
              Return (TextCell value value)
          end
      end
  end.

End TypesTable.

(* ===================================================================== *)
(** ** packages/hash/frontend/src/components/hooks/useGetAccounts.ts     *)
(* ===================================================================== *)

Module GetAccounts.

(** An account of [GetAccountsQuery]. *)
Record Account : Type := {
  entityId : string;
  properties : Js.object;
}.

Record GetAccountsQuery : Type := { accounts : list Account }.

(** What the hook returns for an account. *)
Record AccountData : Type := {
  accountEntityId : string;      (* [entityId] *)
  shortname : Js.value;
  name : Js.value;
}.

(** The function under [useMemo]: [data] is [undefined], here [None],
    until the query has loaded. *)
Definition useGetAccounts (data : option GetAccountsQuery)
  : list AccountData :=
  match data with
  | None => []
  | Some data =>
      let userAccounts :=
        filter (fun account =>
                  Js.has "preferredName" (properties account) = true)
               (accounts data) in
      map (fun account =>
             {| accountEntityId := entityId account;
                shortname := Js.get "shortname" (properties account);
                name :=
                  if Js.has "preferredName" (properties account)
                  then Js.get "preferredName" (properties account)
                  else Js.get "shortname" (properties account) |})
          userAccounts
  end.

End GetAccounts.

(* ===================================================================== *)
(** ** apps/hash-frontend/src/pages/settings/shared/settings-layout.tsx  *)
(* ===================================================================== *)

Module SettingsLayout.

Local Open Scope nat_scope.

(** An [Org] of lib/user-and-org, as far as the layout reads it. *)
Record Org : Type := {
  name : string;
  shortname : string;
}.

Inductive Icon : Type := PeopleGroupIcon.

(** [SidebarItemData]. The source stores in [children] the very objects
    of the menu; here they are given by their positions in the menu. *)
Record SidebarItemData : Type := {
  label : string;
  href : string;
  activeIfHrefStartsWith : option string;
  parentHref : option string;
  icon : option Icon;
  children : list nat;
}.

(** [Array.prototype.sort] with a comparator, as a stable insertion
    sort: [x] goes before the first element it does not compare greater
    than. This is the order an engine gives for a comparator that is a
    consistent ordering, as [localeCompare] is; in any case the result
    holds the same elements. *)
Fixpoint insertSorted {A} (compare : A -> A -> Z) (x : A) (l : list A)
  : list A :=
  match l with
  | [] => [x]
  | y :: rest =>
      if (compare x y <=? 0)%Z then x :: y :: rest
      else y :: insertSorted compare x rest
  end.

Fixpoint sort {A} (compare : A -> A -> Z) (l : list A) : list A :=
  match l with
  | [] => []
  | x :: rest => insertSorted compare x (sort compare rest)
  end.

(** The three items of an organization: the callback of the [map]. *)
Definition organizationItems (org : Org) : list SidebarItemData :=
  [ {| label := name org;
       href := "/settings/organizations/" +:+ shortname org +:+ "/general";
       activeIfHrefStartsWith :=
         Some ("/settings/organizations/" +:+ shortname org);
       parentHref := Some "/settings/organizations";
       icon := None;
       children := [] |};
    {| label := "General";
       href := "/settings/organizations/" +:+ shortname org +:+ "/general";
       activeIfHrefStartsWith := None;
       parentHref := Some ("/settings/organizations/" +:+ shortname org);
       icon := None;
       children := [] |};
    {| label := "Members";
       href := "/settings/organizations/" +:+ shortname org +:+ "/members";
       activeIfHrefStartsWith := None;
       parentHref := Some ("/settings/organizations/" +:+ shortname org);
       icon := None;
       children := [] |} ].

(** [a === s] for [a] a string or [undefined]. *)
Definition equals (a : option string) (s : string) : bool :=
  match a with
  | Some x => String.eqb x s
  | None => false
  end.

(** [a && b === a]: [a] is a string that is not empty, and [b] is it. *)
Definition isTruthyAnd (a b : option string) : bool :=
  match a with
  | Some x => negb (String.eqb x "") && equals b x
  | None => false
  end.

(** The callback of the [filter] that collects the children of [item]. *)
Definition isChildOf (item child : SidebarItemData) : bool :=
  equals (parentHref child) (href item) ||
  isTruthyAnd (activeIfHrefStartsWith item) (parentHref child).

(** The positions, counted from [i], of the elements that satisfy [p]. *)
Fixpoint positionsFrom {A} (i : nat) (p : A -> bool) (l : list A) : list nat :=
  match l with
  | [] => []
  | x :: rest =>
      if p x then i :: positionsFrom (S i) p rest
      else positionsFrom (S i) p rest
  end.

Definition withChildren (menuItems : list SidebarItemData)
    (item : SidebarItemData) : SidebarItemData :=
  {| label := label item;
     href := href item;
     activeIfHrefStartsWith := activeIfHrefStartsWith item;
     parentHref := parentHref item;
     icon := icon item;
     children := positionsFrom 0 (isChildOf item) menuItems |}.

Section Locale.

(** [a.localeCompare(b)], which depends on the locale of the browser. *)
Variable localeCompare : string -> string -> Z.

Definition generateMenuLinks (organizations : list Org)
  : list SidebarItemData :=
  let organizationItems :=
    flat_map organizationItems
      (sort (fun a b => localeCompare (name a) (name b)) organizations) in
  let menuItems :=
    {| label := "Organizations";
       href := "/settings/organizations";
       activeIfHrefStartsWith := None;
       parentHref := None;
       icon := Some PeopleGroupIcon;
       children := [] |}
    :: organizationItems in
  map (withChildren menuItems) menuItems.

(** [menuItems] of the layout. *)
Definition menuItems (accountSignupComplete : bool) (memberOf : list Org)
  : list SidebarItemData :=
  if accountSignupComplete then generateMenuLinks memberOf else [].

End Locale.

Record Crumb : Type := {
  id : string;
  crumbHref : string;            (* [href] *)
  title : string;
}.

(** The callback of the [find] in the loop. *)
Definition isPageAt (href' : string) (item : SidebarItemData) : bool :=
  String.eqb (href item) href' ||
  match activeIfHrefStartsWith item with
  | Some a => negb (String.eqb a "") && String.eqb a href'
  | None => false
  end.

(** The [do ... while (href)] loop; [fuel] bounds the number of rounds,
    and [None] means that it did not suffice. *)
Fixpoint crumbsFrom (fuel : nat) (menuItems : list SidebarItemData)
    (href' : string) (crumbs : list Crumb) : option (list Crumb) :=
  match fuel with
  | O => None
  | S fuel' =>
      match find (isPageAt href') menuItems with
      | None => Some crumbs
      | Some currentPage =>
          let crumbs' :=
            {| id := href currentPage;
               crumbHref := href currentPage;
               title := label currentPage |} :: crumbs in
          match parentHref currentPage with
          | Some parent =>
              if String.eqb parent "" then Some crumbs'
              else crumbsFrom fuel' menuItems parent crumbs'
          | None => Some crumbs'
          end
      end
  end.

(** [breadcrumbs] of the layout, for the path [asPath] of the router. *)
Definition breadcrumbs (fuel : nat) (menuItems : list SidebarItemData)
    (asPath : string) : option (list Crumb) :=
  crumbs ← (if negb (String.eqb asPath "settings")
            then crumbsFrom fuel menuItems asPath []
            else Some []);
  Some ({| id := "settings"; crumbHref := "/settings"; title := "Settings" |}
        :: crumbs).

End SettingsLayout.

(* ===================================================================== *)
(** ** Predicates of the statements below, and example data              *)
(* ===================================================================== *)

Fixpoint slashFree (s : string) : Prop :=
  match s with
  | EmptyString => True
  | String c s' => c <> "/"%char /\ slashFree s'
  end.

Section OntologyTypesNotions.
Import OntologyTypes.


(** A metadata object with both fields: it has the shape of both members
    of the union. *)
Definition ownedAndFetched : Metadata :=
  {| recordId := {| baseUrl := "https://example.com/types/person/";
                    version := 1 |};
     custom := {| ownedById := Some "f1d9a3c2";
                  fetchedAt := Some "2023-05-01T00:00:00Z";
                  provenance := {| recordCreatedById := "f1d9a3c2" |};
                  temporalVersioning :=
                    {| transactionTime :=
                         {| start := "2023-05-01T00:00:00Z";
                            end_ := Unbounded |} |} |} |}.

End OntologyTypesNotions.

Section OrgMembershipNotions.
Import Graph OrgMembership.

Definition exampleSystemTypes : SystemTypes :=
  {| entityType_user :=
       {| schema := {| id := "https://hash.ai/@hash/types/entity-type/user/v/1" |} |};
     entityType_org :=
       {| schema := {| id := "https://hash.ai/@hash/types/entity-type/org/v/1" |} |};
     linkEntityType_orgMembership :=
       {| schema :=
            {| id := "https://hash.ai/@hash/types/entity-type/org-membership/v/1" |} |} |}.

Definition exampleFriendLink : LinkEntity :=
  {| linkMetadata :=
       {| recordId := {| entityId := (1, 7)%nat; editionId := 4%nat |};
          entityTypeId := "https://hash.ai/@hash/types/entity-type/friend/v/1" |};
     linkProperties := [];
     linkEnds := {| leftEntityId := (1, 2)%nat;
                    rightEntityId := (1, 3)%nat |} |}.

Definition exampleCtx : ImpureGraphContext :=
  {| validate := fun _ _ => [];
     checkLinkEndpoints := fun _ _ _ => None |}.

(** A store with the user (1, 0) and the org (1, 1). *)
Definition exampleStore : GraphStore :=
  persistNew
    {| metadata :=
         {| recordId := {| entityId := (1, 1)%nat; editionId := 1%nat |};
            entityTypeId := "https://hash.ai/@hash/types/entity-type/org/v/1" |};
       properties := [];
       linkData := None |}
    (fromNow 1)
    (persistNew
       {| metadata :=
            {| recordId := {| entityId := (1, 0)%nat; editionId := 0%nat |};
               entityTypeId :=
                 "https://hash.ai/@hash/types/entity-type/user/v/1" |};
          properties := [];
          linkData := None |}
       (fromNow 0)
       emptyStore).

Definition exampleParams : CreateOrgMembershipParams :=
  {| orgEntityId := (1, 1)%nat; userEntityId := (1, 0)%nat;
     actorId' := 0%nat |}.

Definition exampleMembership : OrgMembership :=
  {| linkEntity :=
       {| linkMetadata :=
            {| recordId := {| entityId := (1, 2)%nat; editionId := 2%nat |};
               entityTypeId :=
                 "https://hash.ai/@hash/types/entity-type/org-membership/v/1" |};
          linkProperties := [];
          linkEnds := {| leftEntityId := (1, 0)%nat;
                         rightEntityId := (1, 1)%nat |} |} |}.

Definition exampleStore' : GraphStore :=
  persistNew (entityOfLink (linkEntity exampleMembership)) (fromNow 2)
    exampleStore.

End OrgMembershipNotions.

Section PageContentsNotions.
Import PageContents.

Definition fetch (db : DBAdapter) (c : ContentRef) : option DbBlock :=
  getEntity db (namespaceId c) (entityId c).

Definition notFound (c : ContentRef) : ResolverError :=
  Apollo {| message := "entity " +:+ entityId c
                         +:+ " not found in namespace " +:+ namespaceId c;
            code := "NOT_FOUND" |}.

Definition exampleBlock (i : string) : DbBlock :=
  {| blockNamespaceId := "ns1"; blockId := i; blockProperties := [] |}.

(** A store holding the blocks b1 and b2 of the namespace ns1. *)
Definition exampleDb : DBAdapter :=
  {| getEntity := fun ns i =>
       if String.eqb ns "ns1" && (String.eqb i "b1" || String.eqb i "b2")
       then Some (exampleBlock i) else None |}.

Definition examplePage : list ContentRef :=
  [ {| namespaceId := "ns1"; entityId := "b2" |};
    {| namespaceId := "ns1"; entityId := "b1" |} ].

Definition exampleBrokenPage : list ContentRef :=
  [ {| namespaceId := "ns1"; entityId := "b2" |};
    {| namespaceId := "ns1"; entityId := "b9" |} ].

End PageContentsNotions.

Section TemporalNotions.
Import Temporal Graph.
Local Open Scope nat_scope.
Abbreviation Version := (Versioned EntityId Entity).

(** Two versions are compatible when, being of one entity, their
    transaction-time intervals do not overlap and are not both open. *)
Definition compatible (v w : Version) : Prop :=
  identity v = identity w ->
  ~ overlap (transactionTime v) (transactionTime w) /\
  ~ (isOpen (transactionTime v) = true /\ isOpen (transactionTime w) = true).

(** [v'] is [v] with a transaction-time interval that shrank. *)
Definition shrunk (v' v : Version) : Prop :=
  identity v' = identity v /\
  (forall t, contains (transactionTime v') t = true ->
             contains (transactionTime v) t = true) /\
  (isOpen (transactionTime v') = true -> isOpen (transactionTime v) = true).

(** The upper transaction-time bound is unbounded or an exclusive instant
    up to [c]. *)
Definition closedBy (c : Timestamp) (v : Version) : Prop :=
  upperBound (transactionTime v) = Unbounded \/
  exists b, upperBound (transactionTime v) = Exclusive b /\ b <= c.

(** What the mutations keep true of a store. *)
Record wellFormed (st : GraphStore) : Prop := {
  wf_closedBy : Forall (closedBy (clock st)) (versions st);
  wf_uuids : Forall (fun v => snd (identity v) < nextUuid st) (versions st);
  wf_compatible : ForallOrdPairs compatible (versions st);
}.

(** A user entity is created, then updated, then archived. *)
Definition userParams : CreateEntityParams :=
  {| ce_properties := [("shortname", Js.Str "alice")];
     ce_entityTypeId := "https://hash.ai/@hash/types/entity-type/user/v/1";
     ce_ownedById := 1;
     ce_actorId := 0;
     ce_decisionTime := None |}.

Definition storeOf {A} (c : Completion GraphError (A * GraphStore))
  : GraphStore :=
  match c with
  | Return (_, st) => st
  | Throw _ => emptyStore
  end.

Definition storeCreated : GraphStore :=
  storeOf (createEntity exampleCtx userParams emptyStore).

Definition storeUpdated : GraphStore :=
  storeOf (updateEntity exampleCtx (1, 0)
             [("shortname", Js.Str "alice2")] 0 storeCreated).

Definition storeArchived : GraphStore :=
  storeOf (archiveEntity exampleCtx (1, 0) 0 storeUpdated).

End TemporalNotions.

Section SubgraphData.
Import Subgraph.
Local Open Scope nat_scope.

Definition noDepths : ResolveDepths :=
  {| inheritsFrom := 0; constrainsValuesOn := 0; constrainsPropertiesOn := 0;
     constrainsLinksOn := 0; constrainsLinkDestinationsOn := 0;
     hasLeftEntity := 0; hasRightEntity := 0 |}.

(** The entity type employee inherits from person, which inherits from
    thing; employee constrains its links on the link type employer and its
    properties on name and on a property type retired, which has no
    version at the pinned instants. *)
Definition exampleView : GraphView string :=
  {| candidates := [("employee", 1); ("person", 1); ("thing", 1)];
     evaluate := fun rootFilter v => String.eqb (fst v) rootFilter;
     pinned := fun _ v => negb (String.eqb (fst v) "retired");
     edgesFrom := fun k v =>
       match k with
       | InheritsFrom =>
           if String.eqb (fst v) "employee" then [("person", 1)]
           else if String.eqb (fst v) "person" then [("thing", 1)]
           else []
       | ConstrainsLinksOn =>
           if String.eqb (fst v) "employee" then [("employer", 1)] else []
       | ConstrainsPropertiesOn =>
           if String.eqb (fst v) "employee"
           then [("name", 1); ("retired", 1)] else []
       | _ => []
       end |}.

Definition exampleAxes : TemporalAxes :=
  {| transactionInstant := 10; decisionInstant := 10 |}.

Definition inheritsFromEmployee : Edge :=
  {| source := ("employee", 1); kind := InheritsFrom; target := ("person", 1) |}.

End SubgraphData.

Section OntologyApiNotions.
Import OntologyApi.

Definition allOntologyEdgeKinds : list OntologyEdgeKind :=
  [ ConstrainsValuesOn; ConstrainsPropertiesOn; ConstrainsLinksOn;
    ConstrainsLinkDestinationsOn; InheritsFrom ].

Definition entityTypeOperations : list Operation :=
  [ operationOfQuery getEntityTypeQuery;
    operationOfQuery queryEntityTypesQuery ].

Definition propertyTypeOperations : list Operation :=
  [ operationOfField getPropertyType;
    operationOfField getAllLatestPropertyTypes ].

(** The operation takes one argument for the edge kind, an integer. *)
Definition takesIntegerDepthFor (op : Operation) (k : OntologyEdgeKind)
  : Prop :=
  exists t, argumentTypes op (edgeKindName k) = [t] /\ isInteger t = true.

End OntologyApiNotions.

(** What a call returned, or [fallback] if it threw. *)
Definition returned {E A} (c : Completion E A) (fallback : A) : A :=
  match c with
  | Return v => v
  | Throw _ => fallback
  end.

Section LinearTeamsData.
Import LinearTeams.

(** A Linear organization with two teams; the integration of the user u1
    syncs it with the workspace of u1, for all teams, and with the
    workspace of the organization o1, for the engineering team. *)
Definition acmeLinear : LinearOrganization :=
  {| organizationId := "lin-acme";
     organizationName := "Acme";
     organizationTeams :=
       [ {| teamId := "eng"; teamName := "Engineering" |};
         {| teamId := "des"; teamName := "Design" |} ] |}.

Definition workspaceEntityOf (i : EntityId) : Entity :=
  {| entityId := i; properties := ∅ |}.

Definition acmeIntegration : LinearIntegration :=
  {| entity :=
       {| entityId := "u1%integration";
          properties := {[ "linear-org-id" := Js.Str "lin-acme" ]} |};
     syncedWithWorkspaces :=
       [ {| workspaceEntity := workspaceEntityOf "u1"; linearTeamIds := [] |};
         {| workspaceEntity := workspaceEntityOf "o1";
            linearTeamIds := ["eng"] |} ] |}.

Definition userU1 : Workspace :=
  {| kind := user; workspaceId := "u1"; label := "Alice" |}.

Definition orgO1 : Workspace :=
  {| kind := org; workspaceId := "o1"; label := "Acme Inc" |}.

Definition acmeTable : LinearOrganizationTeamsWithWorkspaces :=
  {| linearOrgId := "lin-acme";
     linearOrgName := "Acme";
     teams :=
       [ {| id := "eng"; name := "Engineering";
            workspaceEntityIds := ["u1"; "o1"] |};
         {| id := "des"; name := "Design";
            workspaceEntityIds := ["u1"] |} ] |}.

(** The design team is set to sync with o1 only. *)
Definition afterTeamChange : list LinearOrganizationTeamsWithWorkspaces :=
  returned (handleSelectWorkspaceChange acmeTable "des" ["o1"] [acmeTable]) [].

(** Every team is set to sync with o1 only. *)
Definition afterOrganizationChange
  : list LinearOrganizationTeamsWithWorkspaces :=
  returned (handleSelectAllWorkspacesChange userU1 [orgO1] acmeTable ["o1"]
              [acmeTable]) [].

End LinearTeamsData.

Section TypesTableNotions.
Import TypesTable.

(** The number of columns: the column of the kind is there only in the
    table of all types. *)
Definition columnCount (tableKind : TableKind) : Z :=
  match tableKind with
  | all => 4
  | only _ => 3
  end.

End TypesTableNotions.

Section SettingsLayoutNotions.
Import SettingsLayout.

(** The hrefs of the menu of an organization with the shortname [s]. *)
Definition organizationsOf (s : string) : string :=
  "/settings/organizations/" +:+ s.

Definition organizationsGeneral (s : string) : string :=
  "/settings/organizations/" +:+ s +:+ "/general".

Definition organizationsMembers (s : string) : string :=
  "/settings/organizations/" +:+ s +:+ "/members".

(** The crumbs that start every trail. *)
Definition settingsCrumb : Crumb :=
  {| id := "settings"; crumbHref := "/settings"; title := "Settings" |}.

Definition organizationsCrumb : Crumb :=
  {| id := "/settings/organizations";
     crumbHref := "/settings/organizations";
     title := "Organizations" |}.

(** The item at a position of the menu, for each position listed. *)
Definition itemsAt (menu : list SidebarItemData) (positions : list nat)
  : list (option SidebarItemData) :=
  map (fun i => menu !! i) positions.

(** Example data: two organizations, listed out of order, and a
    comparison of names by their characters. *)
Definition compareNames (a b : string) : Z :=
  match String.compare a b with
  | Lt => -1
  | Eq => 0
  | Gt => 1
  end.

Definition zenith : Org := {| name := "Zenith"; shortname := "zenith" |}.

Definition acme : Org := {| name := "Acme Corp"; shortname := "acme" |}.

End SettingsLayoutNotions.

(* ===================================================================== *)
(** * Theorems                                                            *)
(* ===================================================================== *)

(** ** Strings split at their last slash *)

Lemma append_nil_l (s : string) : "" +:+ s = s.
Proof. reflexivity. Qed.

Lemma append_cons (c : ascii) (a b : string) :
  String c a +:+ b = String c (a +:+ b).
Proof. reflexivity. Qed.


Lemma slashFree_app_slash (p d : string) : ~ slashFree (p +:+ String "/" d).
Proof.
  induction p as [|c p IH].
  - rewrite append_nil_l. intros [H _]. now apply H.
  - rewrite append_cons. intros [_ H]. now apply IH.
Qed.

Lemma split_last_slash (p1 p2 d1 d2 : string) :
  slashFree d1 -> slashFree d2 ->
  p1 +:+ String "/" d1 = p2 +:+ String "/" d2 ->
  p1 = p2 /\ d1 = d2.
Proof.
  intros F1 F2. revert p2.
  induction p1 as [|c p1 IH]; intros [|c' p2] E;
    rewrite ?append_nil_l, ?append_cons in E.
  - split; congruence.
  - exfalso. injection E as _ E. subst d1.
    now apply (slashFree_app_slash p2 d2).
  - exfalso. injection E as _ E. subst d2.
    now apply (slashFree_app_slash p1 d1).
  - injection E as -> E. destruct (IH _ E) as [-> ->]. now split.
Qed.


(** ** Decimal renderings *)




(** ** Ontology type record ids *)

Section OntologyTypesFacts.
Import OntologyTypes.




Example versionedUrl_user_v1 :
  ontologyTypeRecordIdToVersionedUrl
    {| baseUrl := "https://hash.ai/@hash/types/entity-type/user/";
       version := 12 |}
  = "https://hash.ai/@hash/types/entity-type/user/v/12".
Proof. reflexivity. Qed.


(** ** The record id type guard *)

Lemma recordIdObject_shape
    (validateBaseUrl : string -> ValidationResult) (r : OntologyTypeRecordId) :
  isErr (validateBaseUrl (baseUrl r)) = false ->
  hasRecordIdShape validateBaseUrl (recordIdObject r).
Proof.
  intros Hok. exists (baseUrl r), (Js.ofZ (version r)).
  unfold recordIdObject. split; [| split; [exact Hok | split]].
  - apply lookup_insert_eq.
  - rewrite lookup_insert_ne by discriminate. apply lookup_insert_eq.
  - reflexivity.
Qed.

Lemma isOntologyTypeRecordId_needs_baseId
    (validateBaseUrl : string -> ValidationResult) (o : Js.object) :
  o !! "baseId" = None -> isOntologyTypeRecordId validateBaseUrl o = false.
Proof.
  intros Hnone. unfold isOntologyTypeRecordId, Js.has. now rewrite Hnone.
Qed.

(** C3: the guard reads the property [baseId], which the record id type
    does not have: an object [{ baseUrl, version }] built from a record id
    whose base url validates has the shape of the type, and the guard
    answers false on it. *)
Theorem isOntologyTypeRecordId_rejects_record_ids
    (validateBaseUrl : string -> ValidationResult) (r : OntologyTypeRecordId) :
  isErr (validateBaseUrl (baseUrl r)) = false ->
  hasRecordIdShape validateBaseUrl (recordIdObject r) /\
  isOntologyTypeRecordId validateBaseUrl (recordIdObject r) = false.
Proof.
  intros Hok. split.
  - now apply recordIdObject_shape.
  - apply isOntologyTypeRecordId_needs_baseId. unfold recordIdObject.
    rewrite !lookup_insert_ne by discriminate. apply lookup_empty.
Qed.

Lemma isOntologyTypeRecordId_rejects_record_ids_witness :
  let r := {| baseUrl := "https://example.com/types/person/"; version := 1 |} in
  hasRecordIdShape Ok (recordIdObject r) /\
  isOntologyTypeRecordId Ok (recordIdObject r) = false.
Proof.
  intros r. apply (isOntologyTypeRecordId_rejects_record_ids Ok r).
  reflexivity.
Defined.

(** The other direction fails too: an object with [baseId] in place of
    [baseUrl] passes the guard without having the shape of the type. *)
Example isOntologyTypeRecordId_accepts_baseId :
  let o : Js.object :=
    <["baseId" := Js.Str "https://example.com/types/person/"]>
      (<["version" := Js.Number (Js.ofZ 1)]> ∅) in
  isOntologyTypeRecordId Ok o = true /\ ~ hasRecordIdShape Ok o.
Proof.
  intros o. split; [reflexivity |].
  intros (b & x & Hb & _). unfold o in Hb.
  rewrite !lookup_insert_ne in Hb by discriminate.
  now rewrite lookup_empty in Hb.
Qed.

(** ** Owned and external metadata *)

Lemma defined_is_Some {A} (x : option A) : defined x = true <-> is_Some x.
Proof.
  destruct x; simpl; split; intros H; eauto; try discriminate.
  now destruct H.
Qed.

Lemma isOwned_iff (m : Metadata) :
  isOwnedOntologyElementMetadata m = true <-> is_Some (ownedById (custom m)).
Proof. apply defined_is_Some. Qed.

Lemma isExternal_iff (m : Metadata) :
  isExternalOntologyElementMetadata m = true <-> is_Some (fetchedAt (custom m)).
Proof. apply defined_is_Some. Qed.

(** C2, as stated, fails: a value of the union that carries both fields
    satisfies both predicates, so it is not the case that exactly one of
    them holds of every metadata value. *)
Lemma metadata_predicates_not_exclusive :
  ~ (forall m : Metadata, OntologyElementMetadata m ->
       xorb (isOwnedOntologyElementMetadata m)
            (isExternalOntologyElementMetadata m) = true).
Proof.
  intros H. specialize (H ownedAndFetched).
  assert (Hm : OntologyElementMetadata ownedAndFetched)
    by (left; eexists; reflexivity).
  specialize (H Hm). discriminate H.
Qed.

(** C2, amended: each predicate holds exactly when its field is present;
    of every value of the union at least one predicate holds; and exactly
    one holds of a value that carries only one of the two fields. *)
Theorem metadata_predicates_by_field_presence (m : Metadata) :
  OntologyElementMetadata m ->
  (isOwnedOntologyElementMetadata m = true <-> is_Some (ownedById (custom m))) /\
  (isExternalOntologyElementMetadata m = true <-> is_Some (fetchedAt (custom m))) /\
  (isOwnedOntologyElementMetadata m || isExternalOntologyElementMetadata m = true) /\
  (ownedById (custom m) = None \/ fetchedAt (custom m) = None ->
   xorb (isOwnedOntologyElementMetadata m)
        (isExternalOntologyElementMetadata m) = true).
Proof.
  intros Hm. split; [apply isOwned_iff |]. split; [apply isExternal_iff |].
  unfold OntologyElementMetadata, hasOwnedShape, hasExternalShape in Hm.
  unfold isOwnedOntologyElementMetadata, isExternalOntologyElementMetadata.
  destruct (ownedById (custom m)) as [o|], (fetchedAt (custom m)) as [f|];
    simpl; (split; [| intros Hnone]); try reflexivity.
  - destruct Hnone as [E | E]; discriminate E.
  - destruct Hm as [[? E] | [? E]]; discriminate E.
  - destruct Hm as [[? E] | [? E]]; discriminate E.
Qed.

Lemma metadata_predicates_by_field_presence_witness :
  let m := {| recordId := {| baseUrl := "https://example.com/types/person/";
                             version := 1 |};
              custom := {| ownedById := Some "f1d9a3c2";
                           fetchedAt := None;
                           provenance := {| recordCreatedById := "f1d9a3c2" |};
                           temporalVersioning :=
                             {| transactionTime :=
                                  {| start := "2023-05-01T00:00:00Z";
                                     end_ := Unbounded |} |} |} |} in
  OntologyElementMetadata m /\
  (isOwnedOntologyElementMetadata m = true <-> is_Some (ownedById (custom m))) /\
  (isExternalOntologyElementMetadata m = true <-> is_Some (fetchedAt (custom m))) /\
  (isOwnedOntologyElementMetadata m || isExternalOntologyElementMetadata m = true) /\
  (ownedById (custom m) = None \/ fetchedAt (custom m) = None ->
   xorb (isOwnedOntologyElementMetadata m)
        (isExternalOntologyElementMetadata m) = true).
Proof.
  intros m.
  assert (Hm : OntologyElementMetadata m) by (left; eexists; reflexivity).
  exact (conj Hm (metadata_predicates_by_field_presence m Hm)).
Defined.

End OntologyTypesFacts.

(** ** Org memberships *)

Section OrgMembershipFacts.
Import Graph OrgMembership.

Lemma getOrgMembershipFromLinkEntity_match
    (SYSTEM_TYPES : SystemTypes) (l : LinkEntity) :
  entityTypeId (linkMetadata l) =
    id (schema (linkEntityType_orgMembership SYSTEM_TYPES)) ->
  getOrgMembershipFromLinkEntity SYSTEM_TYPES l = Return {| linkEntity := l |}.
Proof.
  intros E. unfold getOrgMembershipFromLinkEntity.
  now rewrite (proj2 (String.eqb_eq _ _) E).
Qed.

(** C1: on a link entity of another type than the org-membership link
    type the function throws an [EntityTypeMismatchError] carrying the
    entity's id and its actual type, but the expected type it names is the
    user entity type, not the org-membership link type it compared with. *)
Theorem getOrgMembershipFromLinkEntity_mismatch
    (SYSTEM_TYPES : SystemTypes) (l : LinkEntity) :
  entityTypeId (linkMetadata l) <>
    id (schema (linkEntityType_orgMembership SYSTEM_TYPES)) ->
  getOrgMembershipFromLinkEntity SYSTEM_TYPES l =
    Throw (EntityTypeMismatchError
             (entityId (recordId (linkMetadata l)))
             (id (schema (entityType_user SYSTEM_TYPES)))
             (entityTypeId (linkMetadata l))).
Proof.
  intros N. unfold getOrgMembershipFromLinkEntity.
  now rewrite (proj2 (String.eqb_neq _ _) N).
Qed.

Lemma getOrgMembershipFromLinkEntity_mismatch_witness :
  getOrgMembershipFromLinkEntity exampleSystemTypes exampleFriendLink =
    Throw (EntityTypeMismatchError
             (1, 7)%nat
             "https://hash.ai/@hash/types/entity-type/user/v/1"
             "https://hash.ai/@hash/types/entity-type/friend/v/1").
Proof.
  apply (getOrgMembershipFromLinkEntity_mismatch
           exampleSystemTypes exampleFriendLink).
  discriminate.
Defined.

(** *** Create, then read the two ends *)

(** The current version of an entity stays the current one when a version
    is added behind it. *)
Lemma current_open (i j : EntityId) (e : Entity)
    (d : Temporal.Interval) (now : Temporal.Timestamp)
    (h : list (Temporal.Versioned EntityId Entity))
    (v : Temporal.Versioned EntityId Entity) :
  Temporal.current i h = Some v ->
  Temporal.current i (Temporal.open j e d now h) = Some v.
Proof.
  unfold Temporal.current, Temporal.open. intros Hv.
  induction h as [|x h IH]; simpl in *; [discriminate |].
  destruct (Temporal.isOpenFor i x); [exact Hv | now apply IH].
Qed.

Section RoundTrip.

Variable SYSTEM_TYPES : SystemTypes.
Variable extractEntityUuidFromEntityId : EntityId -> EntityUuid.
Variables User Org : Type.
Variable getUserFromEntity : Entity -> Completion GraphError User.
Variable getOrgFromEntity : Entity -> Completion GraphError Org.
Variable ctx : ImpureGraphContext.

Let create :=
  createOrgMembership SYSTEM_TYPES extractEntityUuidFromEntityId ctx.

(** What a successful [createOrgMembership] did. *)
Lemma createOrgMembership_inv (params : CreateOrgMembershipParams)
    (st st' : GraphStore) (m : OrgMembership) :
  create params st = Return (m, st') ->
  exists userVersion orgVersion,
    Temporal.current (userEntityId params) (versions st)
      = Some userVersion /\
    Temporal.current (orgEntityId params) (versions st)
      = Some orgVersion /\
    linkEnds (linkEntity m) =
      {| leftEntityId := userEntityId params;
         rightEntityId := orgEntityId params |} /\
    st' = persistNew (entityOfLink (linkEntity m)) (fromNow (clock st)) st.
Proof.
  unfold create, createOrgMembership, bindG, createLinkEntity. simpl.
  destruct (validate ctx _ _); [| discriminate].
  destruct (Temporal.current (userEntityId params) (versions st))
    as [u|] eqn:Hu; [| discriminate].
  destruct (Temporal.current (orgEntityId params) (versions st))
    as [o|] eqn:Ho; [| discriminate].
  destruct (checkLinkEndpoints ctx _ _ _); [discriminate |].
  unfold pureG.
  rewrite getOrgMembershipFromLinkEntity_match by reflexivity.
  intros [= <- <-]. exists u, o. simpl. auto.
Qed.

End RoundTrip.

(** C4: when [createOrgMembership] succeeds for the user id [U] and the
    org id [O], the link entity has [U] as left and [O] as right entity,
    and reading the membership's user (its org) afterwards gives what
    [getUserFromEntity] ([getOrgFromEntity]) makes of the entity stored at
    [U] (at [O]). *)
Theorem createOrgMembership_round_trip
    (SYSTEM_TYPES : SystemTypes)
    (extractEntityUuidFromEntityId : EntityId -> EntityUuid)
    (User Org : Type)
    (getUserFromEntity : Entity -> Completion GraphError User)
    (getOrgFromEntity : Entity -> Completion GraphError Org)
    (ctx : ImpureGraphContext)
    (params : CreateOrgMembershipParams)
    (st st' : GraphStore) (m : OrgMembership) :
  createOrgMembership SYSTEM_TYPES extractEntityUuidFromEntityId ctx params st
    = Return (m, st') ->
  leftEntityId (linkEnds (linkEntity m)) = userEntityId params /\
  rightEntityId (linkEnds (linkEntity m)) = orgEntityId params /\
  exists userEntity orgEntity,
    getLatestEntityById (userEntityId params) st = Return (userEntity, st) /\
    getLatestEntityById (orgEntityId params) st = Return (orgEntity, st) /\
    getOrgMembershipUser User getUserFromEntity ctx m st' =
      pureG (getUserFromEntity userEntity) st' /\
    getOrgMembershipOrg Org getOrgFromEntity ctx m st' =
      pureG (getOrgFromEntity orgEntity) st'.
Proof.
  intros Hcreate.
  apply createOrgMembership_inv in Hcreate as (u & o & Hu & Ho & Hends & ->).
  rewrite Hends. simpl. split; [reflexivity |]. split; [reflexivity |].
  exists (Temporal.payload u), (Temporal.payload o).
  unfold getOrgMembershipUser, getOrgMembershipOrg, bindG,
    getLinkEntityLeftEntity, getLinkEntityRightEntity, getLatestEntityById.
  rewrite Hends, Hu, Ho. simpl.
  rewrite (current_open _ _ _ _ _ _ _ Hu), (current_open _ _ _ _ _ _ _ Ho).
  repeat split; reflexivity.
Qed.

Lemma createOrgMembership_round_trip_witness :
  leftEntityId (linkEnds (linkEntity exampleMembership)) = (1, 0)%nat /\
  rightEntityId (linkEnds (linkEntity exampleMembership)) = (1, 1)%nat /\
  exists userEntity orgEntity,
    getLatestEntityById (1, 0)%nat exampleStore
      = Return (userEntity, exampleStore) /\
    getLatestEntityById (1, 1)%nat exampleStore
      = Return (orgEntity, exampleStore) /\
    getOrgMembershipUser Entity Return exampleCtx exampleMembership
      exampleStore' = pureG (Return userEntity) exampleStore' /\
    getOrgMembershipOrg Entity Return exampleCtx exampleMembership
      exampleStore' = pureG (Return orgEntity) exampleStore'.
Proof.
  apply (createOrgMembership_round_trip
           exampleSystemTypes snd Entity Entity Return Return
           exampleCtx exampleParams exampleStore exampleStore'
           exampleMembership).
  vm_compute. reflexivity.
Defined.

End OrgMembershipFacts.

(** ** The contents of a page *)

Section PageContentsFacts.
Import PageContents.

Lemma drop_cons_inv {A} (l : list A) (i : nat) (x : A) (rest : list A) :
  drop i l = x :: rest -> l !! i = Some x /\ drop (S i) l = rest.
Proof.
  intros E.
  assert (Hx : l !! i = Some x).
  { pose proof (lookup_drop l i 0) as H. rewrite E in H. simpl in H.
    now rewrite Nat.add_0_r in H. }
  split; [exact Hx |].
  rewrite (drop_S _ _ _ Hx) in E. congruence.
Qed.

(** Every entity was found: the loop runs to its end. *)
Lemma forEachFound_all (cs : list ContentRef)
    (entities : list (option DbBlock)) (i : nat) :
  Forall is_Some entities -> forEachFound cs entities i = Return tt.
Proof.
  intros H. revert i.
  induction H as [|e es [b ->] _ IH]; intros i; simpl; [reflexivity |].
  apply IH.
Qed.

(** Some entity is missing: the loop throws at the first one. *)
Lemma forEachFound_missing (db : DBAdapter) (cs rest : list ContentRef) :
  forall i : nat,
  drop i cs = rest ->
  Exists (fun c => fetch db c = None) rest ->
  exists c, c ∈ rest /\ fetch db c = None /\
            forEachFound cs (map (fetch db) rest) i = Throw (notFound c).
Proof.
  induction rest as [|c rest IH]; intros i Hdrop Hex.
  - inversion Hex.
  - apply drop_cons_inv in Hdrop as [Hi Hrest]. simpl.
    destruct (fetch db c) as [b|] eqn:Hc.
    + apply Exists_cons in Hex as [Hex | Hex]; [congruence |].
      destruct (IH (S i) Hrest Hex) as (c' & Hin & Hnone & Hthrow).
      exists c'. split; [now apply list_elem_of_further |]. now split.
    + exists c. split; [apply list_elem_of_here |]. split; [exact Hc |].
      now rewrite Hi.
Qed.

Lemma contents_unfold (db : DBAdapter) (cs : list ContentRef) :
  contents db cs =
  match forEachFound cs (map (fetch db) cs) 0 with
  | Return _ => Return (map (fetch db) cs)
  | Throw e => Throw e
  end.
Proof. reflexivity. Qed.

Lemma contents_found (db : DBAdapter) (cs : list ContentRef) :
  (forall c, c ∈ cs -> is_Some (fetch db c)) ->
  contents db cs = Return (map (fetch db) cs).
Proof.
  intros Hall. rewrite contents_unfold, forEachFound_all; [reflexivity |].
  apply Forall_forall. intros e He.
  apply list_elem_of_fmap in He as (c & -> & Hc). now apply Hall.
Qed.

(** Every entity was found: the result is the list of the fetched blocks,
    entry by entry. *)
Lemma contents_all_found (db : DBAdapter) (cs : list ContentRef) :
  (forall c, c ∈ cs -> is_Some (fetch db c)) ->
  exists blocks : list DbBlock,
    contents db cs = Return (map Some blocks) /\
    Forall2 (fun c b => fetch db c = Some b) cs blocks.
Proof.
  intros Hall. rewrite (contents_found db cs Hall). clear -Hall.
  induction cs as [|c cs IH].
  - exists []. split; [reflexivity | constructor].
  - destruct (Hall c (list_elem_of_here _ _)) as [b Hb].
    destruct IH as (bs & Hbs & HF).
    { intros c' Hc'. apply Hall. now apply list_elem_of_further. }
    exists (b :: bs). split.
    + injection Hbs as Hbs. simpl. now rewrite Hb, Hbs.
    + constructor; assumption.
Qed.

(** C5: if the page's contents refer to an entity the store does not
    have, the resolver throws an [ApolloError] with the code NOT_FOUND
    whose message holds the id and the namespace id of a missing entity
    of the list; if the store has every entity referred to, the resolver
    returns the fetched blocks. *)
Theorem contents_not_found_or_blocks (db : DBAdapter) (cs : list ContentRef) :
  ((exists c, c ∈ cs /\ getEntity db (namespaceId c) (entityId c) = None) ->
   exists c, c ∈ cs /\ getEntity db (namespaceId c) (entityId c) = None /\
     contents db cs =
       Throw (Apollo {| message := "entity " +:+ entityId c
                                     +:+ " not found in namespace "
                                     +:+ namespaceId c;
                        code := "NOT_FOUND" |})) /\
  ((forall c, c ∈ cs ->
      is_Some (getEntity db (namespaceId c) (entityId c))) ->
   exists blocks : list DbBlock,
     contents db cs = Return (map Some blocks) /\
     Forall2 (fun c b => getEntity db (namespaceId c) (entityId c) = Some b)
             cs blocks).
Proof.
  split.
  - intros (c & Hin & Hnone).
    destruct (forEachFound_missing db cs cs 0 eq_refl) as (c' & Hin' & Hn' & Ht).
    { apply Exists_exists. exists c. split; [exact Hin | exact Hnone]. }
    exists c'. split; [exact Hin' |]. split; [exact Hn' |].
    rewrite contents_unfold, Ht. reflexivity.
  - apply contents_all_found.
Qed.

Example contents_broken_page :
  contents exampleDb exampleBrokenPage =
  Throw (Apollo {| message := "entity b9 not found in namespace ns1";
                   code := "NOT_FOUND" |}).
Proof. reflexivity. Qed.

Example contents_page :
  contents exampleDb examplePage =
  Return [Some (exampleBlock "b2"); Some (exampleBlock "b1")].
Proof. reflexivity. Qed.

Lemma contents_not_found_or_blocks_witness :
  (exists c, c ∈ exampleBrokenPage /\
     getEntity exampleDb (namespaceId c) (entityId c) = None /\
     contents exampleDb exampleBrokenPage =
       Throw (Apollo {| message := "entity " +:+ entityId c
                                     +:+ " not found in namespace "
                                     +:+ namespaceId c;
                        code := "NOT_FOUND" |})) /\
  (exists blocks : list DbBlock,
     contents exampleDb examplePage = Return (map Some blocks) /\
     Forall2 (fun c b =>
                getEntity exampleDb (namespaceId c) (entityId c) = Some b)
             examplePage blocks).
Proof.
  split.
  - apply (proj1 (contents_not_found_or_blocks exampleDb exampleBrokenPage)).
    exists {| namespaceId := "ns1"; entityId := "b9" |}.
    split; [| reflexivity].
    apply list_elem_of_further, list_elem_of_here.
  - apply (proj2 (contents_not_found_or_blocks exampleDb examplePage)).
    intros c Hc. unfold examplePage in Hc.
    apply elem_of_cons in Hc as [-> | Hc]; [eexists; reflexivity |].
    apply elem_of_cons in Hc as [-> | Hc]; [eexists; reflexivity |].
    now apply elem_of_nil in Hc.
Defined.

(** C10: when the store has every entity the contents refer to, the
    resolver returns as many blocks as the contents list has entries, and
    the block at each index is the entity fetched for the entry at that
    index. *)
Theorem contents_in_order (db : DBAdapter) (cs : list ContentRef) :
  (forall c, c ∈ cs ->
     is_Some (getEntity db (namespaceId c) (entityId c))) ->
  exists blocks : list DbBlock,
    contents db cs = Return (map Some blocks) /\
    length blocks = length cs /\
    forall (i : nat) (c : ContentRef),
      cs !! i = Some c ->
      exists b, blocks !! i = Some b /\
                getEntity db (namespaceId c) (entityId c) = Some b.
Proof.
  intros Hall.
  destruct (contents_all_found db cs Hall) as (blocks & Hret & HF).
  exists blocks. split; [exact Hret |]. split.
  - symmetry. exact (Forall2_length _ _ _ HF).
  - intros i c Hi.
    destruct (Forall2_lookup_l _ _ _ _ _ HF Hi) as (b & Hb & Hfetch).
    exists b. now split.
Qed.

Lemma contents_in_order_witness :
  exists blocks : list DbBlock,
    contents exampleDb examplePage = Return (map Some blocks) /\
    length blocks = length examplePage /\
    forall (i : nat) (c : ContentRef),
      examplePage !! i = Some c ->
      exists b, blocks !! i = Some b /\
                getEntity exampleDb (namespaceId c) (entityId c) = Some b.
Proof.
  apply (contents_in_order exampleDb examplePage).
  intros c Hc. unfold examplePage in Hc.
  apply elem_of_cons in Hc as [-> | Hc]; [eexists; reflexivity |].
  apply elem_of_cons in Hc as [-> | Hc]; [eexists; reflexivity |].
  now apply elem_of_nil in Hc.
Defined.

End PageContentsFacts.

(** ** The temporal invariant of the graph store *)

Section TemporalFacts.
Import Temporal Graph.
Local Open Scope nat_scope.

Abbreviation Version := (Versioned EntityId Entity).

Lemma overlap_sym (i j : Interval) : overlap i j -> overlap j i.
Proof. intros (t & Hi & Hj). exists t. now split. Qed.

Lemma compatible_sym (v w : Version) : compatible v w -> compatible w v.
Proof.
  intros H E. destruct (H (eq_sym E)) as [Ho Hb]. split.
  - intros Hov. now apply Ho, overlap_sym.
  - intros [H1 H2]. now apply Hb.
Qed.

Lemma shrunk_refl (v : Version) : shrunk v v.
Proof. repeat split; auto. Qed.

Lemma compatible_shrunk (v v' w w' : Version) :
  shrunk v' v -> shrunk w' w -> compatible v w -> compatible v' w'.
Proof.
  intros (Ev & Cv & Ov) (Ew & Cw & Ow) H E.
  destruct H as [Hno Hopen]; [congruence |]. split.
  - intros (t & H1 & H2). apply Hno. exists t. auto.
  - intros [H1 H2]. apply Hopen. auto.
Qed.

Lemma Forall_compatible_shrunk (v v' : Version) (l l' : list Version) :
  shrunk v' v -> Forall2 shrunk l' l ->
  Forall (compatible v) l -> Forall (compatible v') l'.
Proof.
  intros Hv HF. induction HF as [|w' w l' l Hw HF IH]; intros Hall.
  - constructor.
  - inversion Hall; subst. constructor; [| now apply IH].
    now apply (compatible_shrunk v v' w w').
Qed.

Lemma ForallOrdPairs_shrunk (l l' : list Version) :
  Forall2 shrunk l' l ->
  ForallOrdPairs compatible l -> ForallOrdPairs compatible l'.
Proof.
  intros HF. induction HF as [|v' v l' l Hv HF IH]; intros Hp.
  - constructor.
  - inversion Hp; subst. constructor; [| now apply IH].
    now apply (Forall_compatible_shrunk v v' l l').
Qed.

Lemma ForallOrdPairs_snoc {A} (R : A -> A -> Prop) (l : list A) (x : A) :
  ForallOrdPairs R l -> Forall (fun y => R y x) l ->
  ForallOrdPairs R (l ++ [x])%list.
Proof.
  intros Hp. induction Hp as [|a l Ha Hp IH]; intros Hx; simpl.
  - constructor; constructor.
  - inversion Hx; subst. constructor; [| now apply IH].
    apply Forall_app. split; [exact Ha | now constructor].
Qed.

Lemma ForallOrdPairs_lookup {A} (R : A -> A -> Prop) (l : list A) :
  ForallOrdPairs R l ->
  forall i j x y, l !! i = Some x -> l !! j = Some y -> i < j -> R x y.
Proof.
  intros Hp. induction Hp as [|a l Ha Hp IH]; intros i j x y Hi Hj Hlt.
  - discriminate.
  - destruct j as [|j]; [lia |]. destruct i as [|i]; simpl in *.
    + injection Hi as <-.
      rewrite Forall_forall in Ha. apply Ha.
      now apply (list_elem_of_lookup_2 l j).
    + apply (IH i j); [assumption | assumption | lia].
Qed.

(** Pairwise compatibility is the invariant, read by position. *)
Lemma compatible_temporalInvariant (h : list Version) :
  ForallOrdPairs compatible h -> temporalInvariant h.
Proof.
  intros Hp i j v w Hi Hj Hne E.
  destruct (Nat.lt_ge_cases i j) as [Hlt | Hge].
  - exact (ForallOrdPairs_lookup _ _ Hp i j v w Hi Hj Hlt E).
  - assert (Hlt : j < i) by lia.
    pose proof (ForallOrdPairs_lookup _ _ Hp j i w v Hj Hi Hlt) as Hc.
    exact (compatible_sym _ _ Hc E).
Qed.

(** *** Closing a version *)

Lemma close_cons (i : EntityId) (t : Timestamp) (v : Version)
    (rest : list Version) :
  close i t (v :: rest) =
  if isOpenFor i v then Return (closeVersion v t :: rest)
  else match close i t rest with
       | Return rest' => Return (v :: rest')
       | Throw e => Throw e
       end.
Proof. reflexivity. Qed.

Lemma isOpenFor_true (i : EntityId) (v : Version) :
  isOpenFor i v = true ->
  identity v = i /\ upperBound (transactionTime v) = Unbounded.
Proof.
  unfold isOpenFor, isOpen. intros H.
  apply andb_true_iff in H as [Hi Ho].
  apply bool_decide_eq_true in Hi. split; [exact Hi |].
  destruct (upperBound (transactionTime v)); congruence.
Qed.

Lemma closeVersion_shrunk (v : Version) (t : Timestamp) :
  upperBound (transactionTime v) = Unbounded -> shrunk (closeVersion v t) v.
Proof.
  intros Hu. split; [reflexivity |]. split.
  - intros x. unfold contains. simpl. rewrite Hu. simpl.
    intros H. apply andb_true_iff in H as [-> _]. reflexivity.
  - discriminate.
Qed.

(** The decomposition of a history at the version that [close] closes. *)
Lemma close_split (i : EntityId) (t : Timestamp) (h h' : list Version) :
  close i t h = Return h' ->
  exists before v after,
    h = (before ++ v :: after)%list /\
    h' = (before ++ closeVersion v t :: after)%list /\
    isOpenFor i v = true /\
    Forall (fun x => isOpenFor i x = false) before.
Proof.
  revert h'. induction h as [|v rest IH]; intros h' Hc.
  - discriminate.
  - rewrite close_cons in Hc. destruct (isOpenFor i v) eqn:Hv.
    + injection Hc as <-. exists [], v, rest. simpl. auto.
    + destruct (close i t rest) as [rest'|] eqn:Hr; [| discriminate].
      injection Hc as <-.
      destruct (IH rest' eq_refl) as (b & x & a & -> & -> & Hx & Hb).
      exists (v :: b), x, a. simpl. repeat split; auto.
Qed.

Lemma close_shrunk (i : EntityId) (t : Timestamp) (h h' : list Version) :
  close i t h = Return h' -> Forall2 shrunk h' h.
Proof.
  intros Hc. apply close_split in Hc as (b & v & a & -> & -> & Hv & _).
  apply Forall2_app.
  - apply Forall2_same_length_lookup. split; [reflexivity |].
    intros k x y Hx Hy. rewrite Hx in Hy. injection Hy as <-.
    apply shrunk_refl.
  - constructor.
    + apply closeVersion_shrunk. now apply isOpenFor_true in Hv.
    + apply Forall2_same_length_lookup. split; [reflexivity |].
      intros k x y Hx Hy. rewrite Hx in Hy. injection Hy as <-.
      apply shrunk_refl.
Qed.

Lemma close_closedBy (i : EntityId) (t c : Timestamp) (h h' : list Version) :
  close i t h = Return h' -> t <= c ->
  Forall (closedBy c) h -> Forall (closedBy c) h'.
Proof.
  intros Hc Hle Hall.
  apply close_split in Hc as (b & v & a & -> & -> & _ & _).
  apply Forall_app in Hall as [Hb Ha]. inversion Ha; subst.
  apply Forall_app. split; [exact Hb |]. constructor; [| assumption].
  right. exists t. split; [reflexivity | exact Hle].
Qed.

Lemma close_uuids (i : EntityId) (t : Timestamp) (n : Uuid)
    (h h' : list Version) :
  close i t h = Return h' ->
  Forall (fun v => snd (identity v) < n) h ->
  Forall (fun v => snd (identity v) < n) h'.
Proof.
  intros Hc Hall.
  apply close_split in Hc as (b & v & a & -> & -> & _ & _).
  apply Forall_app in Hall as [Hb Ha]. inversion Ha; subst.
  apply Forall_app. split; [exact Hb |]. now constructor.
Qed.

(** After [close], no version of the entity is open, provided at most
    one was before. *)
Lemma close_none_open (i : EntityId) (t : Timestamp) (h h' : list Version) :
  ForallOrdPairs compatible h ->
  close i t h = Return h' ->
  Forall (fun x => isOpenFor i x = false) h'.
Proof.
  intros Hp. revert h'.
  induction Hp as [|v rest Hv Hp IH]; intros h' Hc; [discriminate |].
  rewrite close_cons in Hc. destruct (isOpenFor i v) eqn:Ho.
  - injection Hc as <-. constructor.
    + unfold isOpenFor, isOpen. simpl. apply andb_false_r.
    + apply isOpenFor_true in Ho as [Hi Hu].
      eapply Forall_impl; [exact Hv |]. intros w Hw. simpl in Hw.
      destruct (isOpenFor i w) eqn:How; [| reflexivity].
      apply isOpenFor_true in How as [Hiw Huw].
      destruct Hw as [_ Hboth]; [congruence |].
      exfalso. apply Hboth. unfold isOpen. now rewrite Hu, Huw.
  - destruct (close i t rest) as [rest'|] eqn:Hr; [| discriminate].
    injection Hc as <-. constructor; [exact Ho | now apply IH].
Qed.

(** *** Opening a version *)

Lemma closed_before_open (w : Version) (i : EntityId) (e : Entity)
    (d : Interval) (now : Timestamp) :
  closedBy now w -> isOpenFor i w = false ->
  compatible w (openVersion i e d now).
Proof.
  intros Hc Hno E. simpl in E.
  destruct Hc as [Hu | (b & Hb & Hle)].
  - exfalso. unfold isOpenFor, isOpen in Hno. rewrite Hu in Hno.
    rewrite andb_true_r in Hno. apply bool_decide_eq_false in Hno.
    now apply Hno.
  - split.
    + intros (t & H1 & H2). unfold contains in H1, H2.
      rewrite Hb in H1. simpl in H1, H2.
      apply andb_true_iff in H1 as [_ H1]. apply andb_true_iff in H2 as [H2 _].
      apply Nat.ltb_lt in H1. apply Nat.leb_le in H2. lia.
    + intros [H1 _]. unfold isOpen in H1. now rewrite Hb in H1.
Qed.

Lemma Forall_closedBy_mono (c c' : Timestamp) (h : list Version) :
  c <= c' -> Forall (closedBy c) h -> Forall (closedBy c') h.
Proof.
  intros Hle Hall. eapply Forall_impl; [exact Hall |].
  intros v [Hu | (b & Hb & Hbc)].
  - now left.
  - right. exists b. split; [exact Hb | lia].
Qed.

(** A new entity, under the next uuid, keeps the store well-formed. *)
Lemma persistNew_wellFormed (e : Entity) (d : Interval) (st : GraphStore) :
  snd (entityId (recordId (metadata e))) = nextUuid st ->
  wellFormed st -> wellFormed (persistNew e d st).
Proof.
  intros Hid [Hc Hu Hp]. unfold persistNew, open. split; simpl.
  - apply Forall_app. split.
    + apply (Forall_closedBy_mono (clock st)); [lia | exact Hc].
    + constructor; [| constructor]. now left.
  - apply Forall_app. split.
    + eapply Forall_impl; [exact Hu |]. simpl. intros v Hv. lia.
    + constructor; [| constructor]. simpl. lia.
  - apply ForallOrdPairs_snoc; [exact Hp |].
    eapply Forall_impl; [exact Hu |]. intros v Hv E. exfalso.
    assert (Hn : snd (identity v) = nextUuid st) by (rewrite E; exact Hid).
    simpl in Hv. lia.
Qed.

Lemma current_Some (i : EntityId) (h : list Version) (v : Version) :
  current i h = Some v -> v ∈ h /\ isOpenFor i v = true.
Proof.
  unfold current. intros H. apply find_some in H as [Hin Ho].
  split; [now apply list_elem_of_In | exact Ho].
Qed.

(** Closing the current version and opening its successor at the same
    instant keeps the store well-formed. *)
Lemma supersede_wellFormed (i : EntityId) (e : Entity) (st : GraphStore)
    (v : Version) (closed : list Version) :
  wellFormed st ->
  current i (versions st) = Some v ->
  close i (clock st) (versions st) = Return closed ->
  wellFormed {| versions := open i e (fromNow (clock st)) (clock st) closed;
                clock := S (clock st);
                nextUuid := nextUuid st |}.
Proof.
  intros [Hc Hu Hp] Hcur Hclose. unfold open. split; simpl.
  - apply Forall_app. split.
    + apply (close_closedBy i (clock st) _ (versions st)); [exact Hclose | lia |].
      apply (Forall_closedBy_mono (clock st)); [lia | exact Hc].
    + constructor; [| constructor]. now left.
  - apply Forall_app. split.
    + exact (close_uuids _ _ _ _ _ Hclose Hu).
    + constructor; [| constructor]. simpl.
      apply current_Some in Hcur as [Hin Ho].
      apply isOpenFor_true in Ho as [<- _].
      rewrite Forall_forall in Hu. now apply Hu.
  - apply ForallOrdPairs_snoc.
    + exact (ForallOrdPairs_shrunk _ _ (close_shrunk _ _ _ _ Hclose) Hp).
    + pose proof (close_none_open _ _ _ _ Hp Hclose) as Hnone.
      pose proof (close_closedBy _ _ (clock st) _ _ Hclose (le_n _) Hc) as Hby.
      rewrite Forall_forall in Hnone, Hby. apply Forall_forall.
      intros w Hw. apply closed_before_open; auto.
Qed.

Lemma archive_wellFormed (i : EntityId) (st : GraphStore)
    (closed : list Version) :
  wellFormed st ->
  close i (clock st) (versions st) = Return closed ->
  wellFormed {| versions := closed;
                clock := S (clock st);
                nextUuid := nextUuid st |}.
Proof.
  intros [Hc Hu Hp] Hclose. split; simpl.
  - apply (close_closedBy i (clock st) _ (versions st)); [exact Hclose | lia |].
    apply (Forall_closedBy_mono (clock st)); [lia | exact Hc].
  - exact (close_uuids _ _ _ _ _ Hclose Hu).
  - exact (ForallOrdPairs_shrunk _ _ (close_shrunk _ _ _ _ Hclose) Hp).
Qed.

Lemma mutation_wellFormed (ctx : ImpureGraphContext) (st st' : GraphStore) :
  wellFormed st -> mutation ctx st st' -> wellFormed st'.
Proof.
  intros Hwf Hm. destruct Hm as
    [params st e st' H | i props actor st e st' H
    | i actor st st' H | params st l st' H].
  - unfold createEntity in H.
    destruct (validate ctx _ _); [| discriminate].
    injection H as _ <-. now apply persistNew_wellFormed.
  - unfold updateEntity in H.
    destruct (current i (versions st)) as [v|] eqn:Hcur; [| discriminate].
    destruct (close i (clock st) (versions st)) as [closed|] eqn:Hclose;
      [| discriminate].
    injection H as _ <-. now apply (supersede_wellFormed i _ st v).
  - unfold archiveEntity in H.
    destruct (close i (clock st) (versions st)) as [closed|] eqn:Hclose;
      [| discriminate].
    injection H as <-. now apply (archive_wellFormed i).
  - unfold createLinkEntity in H.
    destruct (validate ctx _ _); [| discriminate].
    destruct (current (leftEntityId_ params) (versions st)); [| discriminate].
    destruct (current (rightEntityId_ params) (versions st)); [| discriminate].
    destruct (checkLinkEndpoints ctx _ _ _); [discriminate |].
    injection H as _ <-. now apply persistNew_wellFormed.
Qed.

Lemma emptyStore_wellFormed : wellFormed emptyStore.
Proof. split; simpl; constructor. Qed.

Lemma reachable_wellFormed (ctx : ImpureGraphContext) (st : GraphStore) :
  reachable ctx st -> wellFormed st.
Proof.
  induction 1 as [|st st' _ IH Hm].
  - apply emptyStore_wellFormed.
  - exact (mutation_wellFormed ctx st st' IH Hm).
Qed.

(** What [updateEntity] does to the history: the version it closes gets as
    upper bound the transaction time of the version that supersedes it. *)
Lemma updateEntity_supersedes (ctx : ImpureGraphContext) (i : EntityId)
    (props : PropertyObject) (actor : AccountId)
    (st st' : GraphStore) (e : Entity) :
  updateEntity ctx i props actor st = Return (e, st') ->
  exists before old after new,
    versions st = (before ++ old :: after)%list /\
    isOpenFor i old = true /\
    versions st' =
      ((before ++ closeVersion old (clock st) :: after) ++ [new])%list /\
    identity new = i /\
    payload new = e /\
    lowerBound (transactionTime new) = Inclusive (clock st) /\
    upperBound (transactionTime new) = Unbounded /\
    upperBound (transactionTime (closeVersion old (clock st)))
      = Exclusive (clock st).
Proof.
  unfold updateEntity. intros H.
  destruct (current i (versions st)) as [v|] eqn:Hcur; [| discriminate].
  destruct (close i (clock st) (versions st)) as [closed|] eqn:Hclose;
    [| discriminate].
  injection H as <- <-.
  apply close_split in Hclose as (b & old & a & Hh & -> & Ho & _).
  exists b, old, a, (openVersion i (withProperties (payload v) props (clock st))
                       (fromNow (clock st)) (clock st)).
  simpl. unfold open. repeat split; auto.
Qed.

(** C8: in every store that the mutations of the Graph Store
    ([createEntity], [updateEntity], [archiveEntity], [createLinkEntity])
    lead to from the empty one, the versions of one entity id have
    pairwise non-overlapping transaction-time intervals and at most one of
    them is unbounded above; every mutation leads from such a store to such
    a store; and [updateEntity] gives the version it closes the
    transaction time of the superseding version as upper bound. *)
Theorem graph_store_temporal_invariant (ctx : ImpureGraphContext) :
  (forall st, reachable ctx st -> temporalInvariant (versions st)) /\
  (forall st st',
     reachable ctx st -> mutation ctx st st' ->
     temporalInvariant (versions st')) /\
  (forall i props actor st st' e,
     updateEntity ctx i props actor st = Return (e, st') ->
     exists before old after new,
       versions st = (before ++ old :: after)%list /\
       isOpenFor i old = true /\
       versions st' =
         ((before ++ closeVersion old (clock st) :: after) ++ [new])%list /\
       identity new = i /\
       transactionTime new =
         {| lowerBound := Inclusive (clock st); upperBound := Unbounded |} /\
       transactionTime (closeVersion old (clock st)) =
         {| lowerBound := lowerBound (transactionTime old);
            upperBound := Exclusive (clock st) |}).
Proof.
  split; [| split].
  - intros st Hr. apply compatible_temporalInvariant.
    now destruct (reachable_wellFormed ctx st Hr).
  - intros st st' Hr Hm. apply compatible_temporalInvariant.
    pose proof (reachable_wellFormed ctx st Hr) as Hwf.
    now destruct (mutation_wellFormed ctx st st' Hwf Hm).
  - intros i props actor st st' e H.
    apply updateEntity_supersedes in H
      as (b & old & a & new & Hh & Ho & Hh' & Hi & _ & Hl & Hu & _).
    exists b, old, a, new. repeat split; auto.
    destruct new as [ni np nd [nl nu]]. simpl in *. now subst.
Qed.

Example storeArchived_intervals :
  map transactionTime (versions storeArchived) =
  [ {| lowerBound := Inclusive 0; upperBound := Exclusive 1 |};
    {| lowerBound := Inclusive 1; upperBound := Exclusive 2 |} ].
Proof. reflexivity. Qed.

Lemma storeCreated_reachable : reachable exampleCtx storeCreated.
Proof.
  apply (reachable_step _ emptyStore); [apply reachable_empty |].
  eapply (mutation_createEntity _ userParams). reflexivity.
Qed.

Lemma storeUpdated_reachable : reachable exampleCtx storeUpdated.
Proof.
  apply (reachable_step _ storeCreated); [apply storeCreated_reachable |].
  eapply (mutation_updateEntity _ (1, 0) [("shortname", Js.Str "alice2")] 0).
  reflexivity.
Qed.

Lemma graph_store_temporal_invariant_witness :
  temporalInvariant (versions storeUpdated) /\
  temporalInvariant (versions storeArchived) /\
  exists before old after new,
    versions storeCreated = (before ++ old :: after)%list /\
    isOpenFor (1, 0) old = true /\
    versions storeUpdated =
      ((before ++ closeVersion old (clock storeCreated) :: after)
         ++ [new])%list /\
    identity new = (1, 0) /\
    transactionTime new =
      {| lowerBound := Inclusive (clock storeCreated);
         upperBound := Unbounded |} /\
    transactionTime (closeVersion old (clock storeCreated)) =
      {| lowerBound := lowerBound (transactionTime old);
         upperBound := Exclusive (clock storeCreated) |}.
Proof.
  pose proof (graph_store_temporal_invariant exampleCtx) as (H1 & H2 & H3).
  split; [| split].
  - apply H1. exact storeUpdated_reachable.
  - apply (H2 storeUpdated); [exact storeUpdated_reachable |].
    apply (mutation_archiveEntity _ (1, 0) 0). reflexivity.
  - eapply (H3 (1, 0) [("shortname", Js.Str "alice2")] 0 storeCreated).
    reflexivity.
Defined.

End TemporalFacts.

(** ** The subgraph resolver *)

Section SubgraphFacts.
Import Subgraph.
Local Open Scope nat_scope.

Context {Filter : Type}.
Variable view : GraphView Filter.
Variable axes : TemporalAxes.

Lemma depthOf_withDepth (d : ResolveDepths) (k : EdgeKind) (n : nat) :
  totalDepth (withDepth d k n) + depthOf d k = totalDepth d + n.
Proof. destruct k; unfold totalDepth; simpl; lia. Qed.

(** Every hop uses up one unit of depth. *)
Lemma hop_depth (b b' : Branch) (e : Edge) :
  (e, b') ∈ hop view b -> S (totalDepth (depths b')) = totalDepth (depths b).
Proof.
  unfold hop. intros H. apply list_elem_of_In, in_flat_map in H as (k & _ & H).
  unfold follow in H. destruct (depthOf (depths b) k) as [|d] eqn:Hd; [easy |].
  apply in_map_iff in H as (t & [= <- <-] & _). simpl.
  pose proof (depthOf_withDepth (depths b) k d). lia.
Qed.

Lemma hop_exhausted (b : Branch) : totalDepth (depths b) = 0 -> hop view b = [].
Proof.
  intros H0. destruct (hop view b) as [|[e b'] rest] eqn:Hh; [reflexivity |].
  assert (Hin : (e, b') ∈ hop view b) by (rewrite Hh; apply list_elem_of_here).
  apply hop_depth in Hin. lia.
Qed.

Lemma traverse_nil (n : nat) : traverse view axes n [] = ([], []).
Proof.
  induction n as [|n IH]; [reflexivity |].
  change (traverse view axes (S n) [])
    with (let (found, followed) := traverse view axes n [] in
          (([] ++ found)%list, ([] ++ followed)%list) : list VertexId * list Edge).
  now rewrite IH.
Qed.

Lemma hops_exhausted (frontier : list Branch) :
  Forall (fun b => totalDepth (depths b) = 0) frontier ->
  flat_map (hop view) frontier = [].
Proof.
  induction 1 as [|b l Hb _ IH]; simpl; [reflexivity |].
  now rewrite (hop_exhausted b Hb), IH.
Qed.

(** The branches of the next frontier have one unit of depth less. *)
Lemma next_frontier_depth (n : nat) (frontier : list Branch) :
  Forall (fun b => totalDepth (depths b) <= S n) frontier ->
  Forall (fun b => totalDepth (depths b) <= n)
    (filter (fun b => pinned view axes (vertex b) = true)
            (map snd (flat_map (hop view) frontier))).
Proof.
  intros Hall. apply Forall_forall. intros b' Hb'.
  apply list_elem_of_filter in Hb' as [_ Hb'].
  apply list_elem_of_In, in_map_iff in Hb' as ([e b''] & <- & Hin).
  apply in_flat_map in Hin as (b & Hb & Hin).
  rewrite Forall_forall in Hall.
  apply list_elem_of_In in Hb. specialize (Hall b Hb).
  apply list_elem_of_In, hop_depth in Hin. simpl. lia.
Qed.

(** As many rounds as the frontier has depth left are enough: further
    rounds find nothing more. *)
Lemma traverse_enough (n m : nat) (frontier : list Branch) :
  Forall (fun b => totalDepth (depths b) <= n) frontier ->
  traverse view axes (n + m) frontier = traverse view axes n frontier.
Proof.
  revert frontier. induction n as [|n IH]; intros frontier Hall.
  - simpl. destruct m as [|m]; [reflexivity |]. simpl.
    rewrite hops_exhausted.
    + simpl. rewrite filter_nil. now rewrite traverse_nil.
    + eapply Forall_impl; [exact Hall |]. simpl. intros b Hb. lia.
  - simpl. rewrite (IH _ (next_frontier_depth n frontier Hall)). reflexivity.
Qed.

(** The roots are vertices of the subgraph. *)
Lemma resolve_roots (rootFilter : Filter) (resolveDepths : ResolveDepths)
    (v : VertexId) :
  v ∈ roots (resolve view axes rootFilter resolveDepths) ->
  v ∈ vertices (resolve view axes rootFilter resolveDepths).
Proof.
  unfold resolve.
  destruct (traverse view axes (totalDepth resolveDepths) _)
    as [found followed].
  simpl. intros Hv. apply elem_of_list_to_set, elem_of_app. now left.
Qed.

(** C9: in the subgraph that [resolve] returns, whatever the root filter,
    the resolve depths and the temporal axes, both the source and the
    target of every edge are in the vertex set. *)
Theorem resolve_closed (rootFilter : Filter) (resolveDepths : ResolveDepths)
    (e : Edge) :
  e ∈ edges (resolve view axes rootFilter resolveDepths) ->
  source e ∈ vertices (resolve view axes rootFilter resolveDepths) /\
  target e ∈ vertices (resolve view axes rootFilter resolveDepths).
Proof.
  unfold resolve.
  destruct (traverse view axes (totalDepth resolveDepths) _)
    as [found followed].
  simpl. intros He. apply list_elem_of_filter in He as [Hends _].
  exact Hends.
Qed.

End SubgraphFacts.

Section SubgraphExamples.
Import Subgraph.
Local Open Scope nat_scope.

(** Depths are independent per edge kind: two hops of inheritance, no
    link constraints. *)
Example resolve_depth_independence :
  let sub := resolve exampleView exampleAxes "employee"
               (withDepth noDepths InheritsFrom 2) in
  vertices sub = list_to_set [("employee", 1); ("person", 1); ("thing", 1)] /\
  edges sub =
    [ inheritsFromEmployee;
      {| source := ("person", 1); kind := InheritsFrom;
         target := ("thing", 1) |} ].
Proof. split; vm_compute; reflexivity. Qed.

(** The edge to the property type without a pinned version is left out,
    the one to name is kept. *)
Example resolve_drops_dangling_edge :
  edges (resolve exampleView exampleAxes "employee"
           (withDepth noDepths ConstrainsPropertiesOn 1)) =
    [ {| source := ("employee", 1); kind := ConstrainsPropertiesOn;
         target := ("name", 1) |} ].
Proof. vm_compute. reflexivity. Qed.

Lemma resolve_closed_witness :
  let sub := resolve exampleView exampleAxes "employee"
               (withDepth noDepths InheritsFrom 2) in
  source inheritsFromEmployee ∈ vertices sub /\
  target inheritsFromEmployee ∈ vertices sub.
Proof.
  apply (resolve_closed exampleView exampleAxes "employee"
           (withDepth noDepths InheritsFrom 2) inheritsFromEmployee).
  vm_compute. apply list_elem_of_here.
Defined.

End SubgraphExamples.

(** ** Resolve depth arguments of the ontology queries *)

Section OntologyApiFacts.
Import OntologyApi.

Example getEntityType_takes :
  takes (operationOfQuery getEntityTypeQuery) =
  [ ("entityTypeId", NonNull (Named "VersionedUrl"));
    ("constrainsValuesOn", NonNull (Named "OutgoingEdgeResolveDepthInput"));
    ("constrainsPropertiesOn", NonNull (Named "OutgoingEdgeResolveDepthInput"));
    ("constrainsLinksOn", NonNull (Named "OutgoingEdgeResolveDepthInput"));
    ("constrainsLinkDestinationsOn",
       NonNull (Named "OutgoingEdgeResolveDepthInput"));
    ("inheritsFrom", NonNull (Named "OutgoingEdgeResolveDepthInput")) ].
Proof. reflexivity. Qed.

(** C7, as stated, fails: the argument that [getEntityType] takes for the
    edge kind constrainsValuesOn is of the input type
    [OutgoingEdgeResolveDepthInput!], not an integer. *)
Lemma getEntityType_depth_not_integer :
  ~ takesIntegerDepthFor (operationOfQuery getEntityTypeQuery)
      ConstrainsValuesOn.
Proof.
  intros (t & Ht & Hint). vm_compute in Ht.
  injection Ht as <-. discriminate Hint.
Qed.

(** C7, amended: the four operations that return an ontology subgraph are
    these; the two on entity types take, for each of the five ontology
    edge kinds, exactly one argument named after it, required and of the
    type [OutgoingEdgeResolveDepthInput]; the two on property types take
    exactly one required [Int] argument [dataTypeResolveDepth] and one
    [propertyTypeResolveDepth]. *)
Theorem resolve_depth_arguments_per_kind :
  subgraphOperations = (entityTypeOperations ++ propertyTypeOperations)%list /\
  Forall (fun op =>
            Forall (fun k =>
                      argumentTypes op (edgeKindName k) =
                      [NonNull (Named "OutgoingEdgeResolveDepthInput")])
                   allOntologyEdgeKinds)
         entityTypeOperations /\
  Forall (fun op =>
            argumentTypes op "dataTypeResolveDepth" = [NonNull (Named "Int")] /\
            argumentTypes op "propertyTypeResolveDepth"
              = [NonNull (Named "Int")])
         propertyTypeOperations.
Proof.
  split; [reflexivity |]. split.
  - repeat (constructor; [repeat (constructor; [reflexivity |]); constructor |]).
    constructor.
  - repeat (constructor; [split; reflexivity |]). constructor.
Qed.

End OntologyApiFacts.

(** ** The Linear teams table *)

Section LinearTeamsFacts.
Import LinearTeams.
Local Open Scope nat_scope.

Lemma includes_true (x : string) (l : list string) :
  includes x l = true <-> x ∈ l.
Proof. unfold includes. apply bool_decide_eq_true. Qed.

Lemma includes_false (x : string) (l : list string) :
  includes x l = false <-> x ∉ l.
Proof. unfold includes. apply bool_decide_eq_false. Qed.

Lemma elem_of_insertAll (seen l : list string) (x : string) :
  x ∈ insertAll seen l <-> x ∈ l /\ x ∉ seen.
Proof.
  revert seen. induction l as [|y l IH]; intros seen; simpl.
  - rewrite elem_of_nil. tauto.
  - destruct (includes y seen) eqn:Hy.
    + apply includes_true in Hy. rewrite IH, elem_of_cons.
      split; [tauto |]. intros [[-> | Hx] Hn]; [contradiction | tauto].
    + apply includes_false in Hy. rewrite !elem_of_cons, IH, elem_of_cons.
      split.
      * intros [-> | [Hx Hn]]; [tauto |]. split; [tauto |].
        intros Hs. apply Hn. now right.
      * intros [[-> | Hx] Hn]; [now left |].
        destruct (decide (x = y)) as [-> | Hne]; [now left |].
        right. split; [exact Hx |]. intros [? | ?]; contradiction.
Qed.

Lemma NoDup_insertAll (seen l : list string) : NoDup (insertAll seen l).
Proof.
  revert seen. induction l as [|y l IH]; intros seen; simpl.
  - constructor.
  - destruct (includes y seen); [apply IH |].
    constructor; [| apply IH].
    rewrite elem_of_insertAll, elem_of_cons. tauto.
Qed.

(** A list without repetitions goes through a [Set] unchanged. *)
Lemma insertAll_NoDup (seen l : list string) :
  NoDup l -> (forall x, x ∈ l -> x ∉ seen) -> insertAll seen l = l.
Proof.
  intros Hnd. revert seen.
  induction Hnd as [|y l Hy Hnd IH]; intros seen Hdis; simpl; [reflexivity |].
  rewrite (proj2 (includes_false y seen)) by (apply Hdis; left).
  f_equal. apply IH. intros x Hx. rewrite elem_of_cons.
  intros [-> | Hs]; [contradiction |].
  revert Hs. apply Hdis. now right.
Qed.

Lemma elem_of_arrayFromSet (l : list string) (x : string) :
  x ∈ arrayFromSet l <-> x ∈ l.
Proof.
  unfold arrayFromSet. rewrite elem_of_insertAll, elem_of_nil. tauto.
Qed.

Lemma arrayFromSet_NoDup (l : list string) : NoDup l -> arrayFromSet l = l.
Proof.
  intros H. apply insertAll_NoDup; [exact H |].
  intros x _. apply not_elem_of_nil.
Qed.

(** What a reselection holds: what stays of the current selection, and
    what is newly selected. *)
Lemma elem_of_reselect (current previousSelected entityIds : list EntityId)
    (x : EntityId) :
  x ∈ reselect current previousSelected entityIds <->
  (x ∈ current /\ ~ (x ∈ previousSelected /\ x ∉ entityIds)) \/
  (x ∈ entityIds /\ x ∉ previousSelected).
Proof.
  unfold reselect.
  rewrite elem_of_arrayFromSet, elem_of_app, !list_elem_of_filter.
  rewrite !includes_false, list_elem_of_filter, includes_false. tauto.
Qed.

Lemma NoDup_reselect (current previousSelected entityIds : list EntityId) :
  NoDup (reselect current previousSelected entityIds).
Proof. apply NoDup_insertAll. Qed.

(** Reselecting against the current selection itself gives exactly the
    ids chosen. *)
Lemma elem_of_reselect_same (current entityIds : list EntityId) (x : EntityId) :
  x ∈ reselect current current entityIds <-> x ∈ entityIds.
Proof.
  rewrite elem_of_reselect.
  destruct (decide (x ∈ current)), (decide (x ∈ entityIds)); tauto.
Qed.


(** *** [findIndex] and [find] *)

Lemma findIndex_Some {A} (p : A -> bool) (l : list A) (i : nat) :
  findIndex p l = Some i ->
  exists x, l !! i = Some x /\ p x = true /\ find p l = Some x /\
            forall j y, j < i -> l !! j = Some y -> p y = false.
Proof.
  revert i. induction l as [|x l IH]; intros i H; simpl in H; [discriminate |].
  destruct (p x) eqn:Hx.
  - injection H as <-. exists x. simpl. rewrite Hx.
    repeat split; auto. intros j y Hj. lia.
  - destruct (findIndex p l) as [k|] eqn:Hk; [| discriminate].
    injection H as <-. destruct (IH k eq_refl) as (y & Hl & Hy & Hf & Hbefore).
    exists y. simpl. rewrite Hx. repeat split; auto.
    intros [|j] z Hj Hz; simpl in Hz.
    + now injection Hz as <-.
    + apply (Hbefore j); [lia | exact Hz].
Qed.

Lemma findIndex_None {A} (p : A -> bool) (l : list A) :
  findIndex p l = None <-> forall x, x ∈ l -> p x = false.
Proof.
  induction l as [|x l IH]; simpl.
  - split; [| reflexivity]. intros _ x Hx. now apply elem_of_nil in Hx.
  - destruct (p x) eqn:Hx.
    + split; [discriminate |]. intros H.
      specialize (H x (list_elem_of_here _ _)). congruence.
    + destruct (findIndex p l) as [k|]; simpl.
      * split; [discriminate |]. intros H. exfalso.
        assert (Hk : Some k = None) by
          (apply (proj2 IH); intros y Hy; apply H; now right).
        discriminate Hk.
      * split; [| reflexivity]. intros _ y Hy.
        apply elem_of_cons in Hy as [-> | Hy]; [exact Hx |].
        now apply (proj1 IH).
Qed.

Lemma findIndex_is_Some {A} (p : A -> bool) (l : list A) :
  is_Some (findIndex p l) <-> exists x, x ∈ l /\ p x = true.
Proof.
  split.
  - intros [i Hi]. apply findIndex_Some in Hi as (x & Hl & Hx & _).
    exists x. split; [| exact Hx]. now apply (list_elem_of_lookup_2 l i).
  - intros (x & Hin & Hx). destruct (findIndex p l) eqn:Hf; [eauto |].
    rewrite findIndex_None in Hf. specialize (Hf x Hin). congruence.
Qed.

(** The index found does not move when the element there is replaced by
    one that satisfies the predicate too. *)
Lemma findIndex_insert {A} (p : A -> bool) (l : list A) (i : nat) (y : A) :
  findIndex p l = Some i -> p y = true -> findIndex p (<[i := y]> l) = Some i.
Proof.
  revert i. induction l as [|x l IH]; intros i H Hy; simpl in H; [discriminate |].
  destruct (p x) eqn:Hx.
  - injection H as <-. simpl. now rewrite Hy.
  - destruct (findIndex p l) as [k|] eqn:Hk; [| discriminate].
    injection H as <-. simpl. rewrite Hx, (IH k eq_refl Hy). reflexivity.
Qed.

Lemma take_cons_drop_insert {A} (l : list A) (i : nat) (x y : A) :
  l !! i = Some x -> (take i l ++ y :: drop (S i) l)%list = <[i := y]> l.
Proof.
  intros H. symmetry. apply insert_take_drop.
  now apply (lookup_lt_Some l i x).
Qed.


(** *** Filters *)

Lemma filter_ext_in {A} (P Q : A -> Prop)
    `{!forall x, Decision (P x), !forall x, Decision (Q x)} (l : list A) :
  (forall x, x ∈ l -> P x <-> Q x) -> filter P l = filter Q l.
Proof.
  induction l as [|a l IH]; intros Hext; [reflexivity |].
  assert (Hl : filter P l = filter Q l).
  { apply IH. intros x Hx. apply Hext. now right. }
  pose proof (Hext a (list_elem_of_here _ _)) as Ha.
  destruct (decide (P a)).
  - rewrite !filter_cons_True by tauto. now rewrite Hl.
  - rewrite !filter_cons_False by tauto. exact Hl.
Qed.

Lemma filter_all {A} (P : A -> Prop) `{!forall x, Decision (P x)} (l : list A) :
  (forall x, x ∈ l -> P x) -> filter P l = l.
Proof.
  induction l as [|a l IH]; intros Hall; [reflexivity |].
  rewrite filter_cons_True by (apply Hall; left).
  f_equal. apply IH. intros x Hx. apply Hall. now right.
Qed.

Lemma filter_none {A} (P : A -> Prop) `{!forall x, Decision (P x)} (l : list A) :
  (forall x, x ∈ l -> ~ P x) -> filter P l = [].
Proof.
  induction l as [|a l IH]; intros Hnone; [reflexivity |].
  rewrite filter_cons_False by (apply Hnone; left).
  apply IH. intros x Hx. apply Hnone. now right.
Qed.

Lemma length_filter_all {A} (P : A -> Prop) `{!forall x, Decision (P x)}
    (l : list A) :
  length (filter P l) = length l <-> forall x, x ∈ l -> P x.
Proof.
  split.
  - intros Hlen x Hx. destruct (decide (P x)) as [|Hn]; [assumption |].
    pose proof (length_filter_lt P l x Hx Hn). lia.
  - intros Hall. now rewrite filter_all.
Qed.

(** A selection that is already the one chosen stays as it is. *)
Lemma reselect_fixed (w entityIds : list EntityId) :
  NoDup w -> (forall e, e ∈ w <-> e ∈ entityIds) ->
  reselect w w entityIds = w.
Proof.
  intros Hnd Hsame. unfold reselect.
  rewrite (filter_none (fun e => includes e w = false) entityIds).
  - rewrite (filter_none (fun e => includes e entityIds = false) w).
    + rewrite app_nil_r, filter_all; [now apply arrayFromSet_NoDup |].
      intros x _. apply includes_false, not_elem_of_nil.
    + intros x Hx. rewrite includes_false. apply Hsame in Hx. tauto.
  - intros x Hx. rewrite includes_false. apply Hsame in Hx. tauto.
Qed.

(** *** Selecting the workspaces of one team *)

Lemma handleSelectWorkspaceChange_Return
    (linearOrganization : LinearOrganizationTeamsWithWorkspaces)
    (linearTeamId : string) (entityIds : list EntityId)
    (prev next : list LinearOrganizationTeamsWithWorkspaces) :
  handleSelectWorkspaceChange linearOrganization linearTeamId entityIds prev
    = Return next <->
  exists i o j t,
    findIndex (fun o => String.eqb (linearOrgId o)
                          (linearOrgId linearOrganization)) prev = Some i /\
    prev !! i = Some o /\
    findIndex (fun t => String.eqb (id t) linearTeamId) (teams o) = Some j /\
    teams o !! j = Some t /\
    next =
      <[i := {| linearOrgId := linearOrgId o;
                linearOrgName := linearOrgName o;
                teams :=
                  <[j := {| id := id t;
                            name := name t;
                            workspaceEntityIds :=
                              reselect (workspaceEntityIds t)
                                (workspaceEntityIds t) entityIds |}]>
                    (teams o) |}]> prev.
Proof.
  unfold handleSelectWorkspaceChange. split.
  - destruct (findIndex _ prev) as [i|] eqn:Hi; [| discriminate].
    destruct (prev !! i) as [o|] eqn:Ho; [| discriminate].
    destruct (findIndex _ (teams o)) as [j|] eqn:Hj; [| discriminate].
    destruct (teams o !! j) as [t|] eqn:Ht; [| discriminate].
    destruct (findIndex_Some _ _ _ Hj) as (t' & Ht' & _ & Hfind & _).
    rewrite Ht in Ht'. injection Ht' as <-. rewrite Hfind.
    rewrite (take_cons_drop_insert _ _ _ _ Ht).
    rewrite (take_cons_drop_insert _ _ _ _ Ho).
    intros [= <-]. now exists i, o, j, t.
  - intros (i & o & j & t & Hi & Ho & Hj & Ht & ->).
    rewrite Hi, Ho, Hj, Ht.
    destruct (findIndex_Some _ _ _ Hj) as (t' & Ht' & _ & Hfind & _).
    rewrite Ht in Ht'. injection Ht' as <-. rewrite Hfind.
    rewrite (take_cons_drop_insert _ _ _ _ Ht).
    now rewrite (take_cons_drop_insert _ _ _ _ Ho).
Qed.


(** X2: [handleSelectWorkspaceChange] returns exactly when the state has
    an organization with the id given and the first such organization has
    a team with the team id given; in every other case it throws a
    [TypeError], from reading a property of [undefined]. *)
Theorem handleSelectWorkspaceChange_throws
    (linearOrganization : LinearOrganizationTeamsWithWorkspaces)
    (linearTeamId : string) (entityIds : list EntityId)
    (prev : list LinearOrganizationTeamsWithWorkspaces) :
  ((exists next,
      handleSelectWorkspaceChange linearOrganization linearTeamId
        entityIds prev = Return next) <->
   (exists o,
      find (fun o => String.eqb (linearOrgId o)
                       (linearOrgId linearOrganization)) prev = Some o /\
      exists t, t ∈ teams o /\ id t = linearTeamId)) /\
  ((forall next,
      handleSelectWorkspaceChange linearOrganization linearTeamId
        entityIds prev <> Return next) ->
   handleSelectWorkspaceChange linearOrganization linearTeamId entityIds prev
     = Throw (TypeError "Cannot read properties of undefined")).
Proof.
  split.
  - split.
    + intros [next H].
      apply handleSelectWorkspaceChange_Return in H
        as (i & o & j & t & Hi & Ho & Hj & Ht & _).
      destruct (findIndex_Some _ _ _ Hi) as (o' & Ho' & _ & Hfind & _).
      rewrite Ho in Ho'. injection Ho' as <-.
      exists o. split; [exact Hfind |].
      destruct (findIndex_Some _ _ _ Hj) as (t' & Ht' & Hidt & _).
      exists t'. split; [now apply (list_elem_of_lookup_2 _ j) |].
      now apply String.eqb_eq.
    + intros (o & Hfind & t & Hin & Hid).
      destruct (findIndex (fun o => String.eqb (linearOrgId o)
                             (linearOrgId linearOrganization)) prev)
        as [i|] eqn:Hi.
      * destruct (findIndex_Some _ _ _ Hi) as (o' & Ho' & _ & Hfind' & _).
        rewrite Hfind in Hfind'. injection Hfind' as <-.
        destruct (proj2 (findIndex_is_Some
                    (fun t => String.eqb (id t) linearTeamId) (teams o)))
          as [j Hj].
        { exists t. split; [exact Hin | now apply String.eqb_eq]. }
        destruct (findIndex_Some _ _ _ Hj) as (t' & Ht' & _).
        eexists. apply handleSelectWorkspaceChange_Return.
        exists i, o, j, t'. repeat split; eauto.
      * exfalso. rewrite findIndex_None in Hi.
        apply find_some in Hfind as [Ho Hp].
        apply list_elem_of_In in Ho. specialize (Hi o Ho). congruence.
  - unfold handleSelectWorkspaceChange. intros Hno.
    destruct (findIndex _ prev) as [i|]; [| reflexivity].
    destruct (prev !! i) as [o|]; [| reflexivity].
    destruct (findIndex _ (teams o)) as [j|]; [| reflexivity].
    destruct (teams o !! j) as [t|]; [| reflexivity].
    exfalso. eapply Hno. reflexivity.
Qed.

(** X3: choosing the same entity ids for the same team once more changes
    nothing: the state that [handleSelectWorkspaceChange] returns is a
    fixed point of the same update. *)
Theorem handleSelectWorkspaceChange_idempotent
    (linearOrganization : LinearOrganizationTeamsWithWorkspaces)
    (linearTeamId : string) (entityIds : list EntityId)
    (prev next : list LinearOrganizationTeamsWithWorkspaces) :
  handleSelectWorkspaceChange linearOrganization linearTeamId entityIds prev
    = Return next ->
  handleSelectWorkspaceChange linearOrganization linearTeamId entityIds next
    = Return next.
Proof.
  intros H.
  apply handleSelectWorkspaceChange_Return in H
    as (i & o & j & t & Hi & Ho & Hj & Ht & ->).
  set (w := reselect (workspaceEntityIds t) (workspaceEntityIds t) entityIds).
  set (t' := {| id := id t; name := name t; workspaceEntityIds := w |}).
  set (o' := {| linearOrgId := linearOrgId o;
                linearOrgName := linearOrgName o;
                teams := <[j := t']> (teams o) |}).
  destruct (findIndex_Some _ _ _ Hi) as (o0 & Ho0 & Hido & _).
  rewrite Ho in Ho0. injection Ho0 as <-.
  destruct (findIndex_Some _ _ _ Hj) as (t0 & Ht0 & Hidt & _).
  rewrite Ht in Ht0. injection Ht0 as <-.
  apply handleSelectWorkspaceChange_Return.
  exists i, o', j, t'. split; [| split; [| split; [| split]]].
  - apply findIndex_insert; [exact Hi | exact Hido].
  - apply list_lookup_insert_eq. now apply (lookup_lt_Some prev i o).
  - apply findIndex_insert; [exact Hj | exact Hidt].
  - apply list_lookup_insert_eq. now apply (lookup_lt_Some (teams o) j t).
  - simpl. rewrite !list_insert_insert_eq.
    rewrite (reselect_fixed w entityIds);
      [reflexivity | apply NoDup_reselect |].
    intros e. apply elem_of_reselect_same.
Qed.


(** X4: after [handleSelectWorkspaceChange] the row of the team shows as
    selected exactly those possible workspaces that were chosen. *)
Theorem handleSelectWorkspaceChange_shown
    (linearOrganization : LinearOrganizationTeamsWithWorkspaces)
    (linearTeamId : string) (entityIds : list EntityId)
    (prev next : list LinearOrganizationTeamsWithWorkspaces) :
  handleSelectWorkspaceChange linearOrganization linearTeamId entityIds prev
    = Return next ->
  exists o',
    find (fun o => String.eqb (linearOrgId o)
                     (linearOrgId linearOrganization)) next = Some o' /\
    forall possible : list Workspace,
      selectedForTeam possible o' linearTeamId =
      filter (fun e => e ∈ entityIds) (map workspaceId possible).
Proof.
  intros H.
  apply handleSelectWorkspaceChange_Return in H
    as (i & o & j & t & Hi & Ho & Hj & Ht & ->).
  set (w := reselect (workspaceEntityIds t) (workspaceEntityIds t) entityIds).
  set (t' := {| id := id t; name := name t; workspaceEntityIds := w |}).
  set (o' := {| linearOrgId := linearOrgId o;
                linearOrgName := linearOrgName o;
                teams := <[j := t']> (teams o) |}).
  destruct (findIndex_Some _ _ _ Hi) as (o0 & Ho0 & Hido & _).
  rewrite Ho in Ho0. injection Ho0 as <-.
  destruct (findIndex_Some _ _ _ Hj) as (t0 & Ht0 & Hidt & _).
  rewrite Ht in Ht0. injection Ht0 as <-.
  exists o'. split.
  - pose proof (findIndex_insert _ prev i o' Hi Hido) as Hi'.
    destruct (findIndex_Some _ _ _ Hi') as (x & Hx & _ & Hfind & _).
    rewrite list_lookup_insert_eq in Hx
      by now apply (lookup_lt_Some prev i o).
    now injection Hx as <-.
  - intros possible. unfold selectedForTeam.
    pose proof (findIndex_insert _ (teams o) j t' Hj Hidt) as Hj'.
    destruct (findIndex_Some _ _ _ Hj') as (x & Hx & _ & Hfind & _).
    rewrite list_lookup_insert_eq in Hx
      by now apply (lookup_lt_Some (teams o) j t).
    injection Hx as <-. simpl. rewrite Hfind.
    apply list_filter_iff. intros e. simpl.
    rewrite includes_true. apply elem_of_reselect_same.
Qed.

(** *** Selecting workspaces for every team of an organization *)

Lemma handleSelectAllWorkspacesChange_Return
    (authenticatedUser : Workspace) (memberOf : list Workspace)
    (linearOrganization : LinearOrganizationTeamsWithWorkspaces)
    (entityIds : list EntityId)
    (prev next : list LinearOrganizationTeamsWithWorkspaces) :
  handleSelectAllWorkspacesChange authenticatedUser memberOf
    linearOrganization entityIds prev = Return next <->
  exists i o,
    findIndex (fun o => String.eqb (linearOrgId o)
                          (linearOrgId linearOrganization)) prev = Some i /\
    prev !! i = Some o /\
    next =
      <[i := {| linearOrgId := linearOrgId o;
                linearOrgName := linearOrgName o;
                teams :=
                  map (fun team =>
                         {| id := id team;
                            name := name team;
                            workspaceEntityIds :=
                              reselect (workspaceEntityIds team)
                                (filter
                                   (fun w =>
                                      length (teamsWith w (teams o)) =
                                      length (teams linearOrganization))
                                   (map workspaceId
                                      (possibleWorkspaces authenticatedUser
                                         memberOf)))
                                entityIds |})
                      (teams linearOrganization) |}]> prev.
Proof.
  unfold handleSelectAllWorkspacesChange. split.
  - destruct (findIndex _ prev) as [i|] eqn:Hi; [| discriminate].
    destruct (prev !! i) as [o|] eqn:Ho; [| discriminate].
    rewrite (take_cons_drop_insert _ _ _ _ Ho).
    intros [= <-]. now exists i, o.
  - intros (i & o & Hi & Ho & ->). rewrite Hi, Ho.
    now rewrite (take_cons_drop_insert _ _ _ _ Ho).
Qed.

(** X5: [handleSelectAllWorkspacesChange] throws a [TypeError] when the
    state has no organization with the id of the one given; otherwise it
    returns the state with only the first organization of that id
    replaced: the new one keeps the id and the name of the old, and its
    teams are, by id and name, the teams of the organization given. *)
Theorem handleSelectAllWorkspacesChange_replaces
    (authenticatedUser : Workspace) (memberOf : list Workspace)
    (linearOrganization : LinearOrganizationTeamsWithWorkspaces)
    (entityIds : list EntityId)
    (prev : list LinearOrganizationTeamsWithWorkspaces) :
  match handleSelectAllWorkspacesChange authenticatedUser memberOf
          linearOrganization entityIds prev with
  | Throw e =>
      e = TypeError "Cannot read properties of undefined" /\
      forall o, o ∈ prev -> linearOrgId o <> linearOrgId linearOrganization
  | Return next =>
      exists i o o',
        prev !! i = Some o /\
        linearOrgId o = linearOrgId linearOrganization /\
        (forall k x, k < i -> prev !! k = Some x ->
                     linearOrgId x <> linearOrgId linearOrganization) /\
        next = <[i := o']> prev /\
        linearOrgId o' = linearOrgId o /\
        linearOrgName o' = linearOrgName o /\
        map id (teams o') = map id (teams linearOrganization) /\
        map name (teams o') = map name (teams linearOrganization)
  end.
Proof.
  destruct (handleSelectAllWorkspacesChange _ _ _ _ _) as [next|e] eqn:H.
  - apply handleSelectAllWorkspacesChange_Return in H
      as (i & o & Hi & Ho & ->).
    destruct (findIndex_Some _ _ _ Hi) as (o0 & Ho0 & Hido & _ & Hfirst).
    rewrite Ho in Ho0. injection Ho0 as <-. apply String.eqb_eq in Hido.
    eexists i, o, _. split; [exact Ho |]. split; [exact Hido |]. split.
    { intros k x Hk Hx. apply String.eqb_neq. now apply (Hfirst k). }
    split; [reflexivity |]. simpl. split; [reflexivity |].
    split; [reflexivity |]. rewrite !map_map. simpl. now split.
  - unfold handleSelectAllWorkspacesChange in H.
    destruct (findIndex _ prev) as [i|] eqn:Hi.
    + destruct (findIndex_Some _ _ _ Hi) as (x & Hx & _).
      rewrite Hx in H. discriminate H.
    + injection H as <-. split; [reflexivity |].
      rewrite findIndex_None in Hi. intros o Ho.
      apply String.eqb_neq. now apply Hi.
Qed.

(** Every team syncs with the workspace. *)
Lemma teamsWith_all (e : EntityId) (ts : list TeamWithWorkspaces) (n : nat) :
  n = length ts ->
  (length (teamsWith e ts) = n <->
   forall t, t ∈ ts -> e ∈ workspaceEntityIds t).
Proof.
  intros ->. unfold teamsWith. rewrite length_filter_all.
  split; intros H t Ht; apply includes_true; now apply H.
Qed.

(** X6: when the organization given is the one in the state and has a
    team, [handleSelectAllWorkspacesChange] leaves every entity id chosen
    in every team, and the row of the organization then shows as selected
    exactly those possible workspaces that were chosen. *)
Theorem handleSelectAllWorkspacesChange_shown
    (authenticatedUser : Workspace) (memberOf : list Workspace)
    (linearOrganization : LinearOrganizationTeamsWithWorkspaces)
    (entityIds : list EntityId)
    (prev next : list LinearOrganizationTeamsWithWorkspaces) :
  find (fun o => String.eqb (linearOrgId o)
                   (linearOrgId linearOrganization)) prev
    = Some linearOrganization ->
  teams linearOrganization <> [] ->
  handleSelectAllWorkspacesChange authenticatedUser memberOf
    linearOrganization entityIds prev = Return next ->
  exists o',
    find (fun o => String.eqb (linearOrgId o)
                     (linearOrgId linearOrganization)) next = Some o' /\
    (forall t e, t ∈ teams o' -> e ∈ entityIds ->
                 e ∈ workspaceEntityIds t) /\
    selectedForOrganization
      (possibleWorkspaces authenticatedUser memberOf) o' =
    filter (fun e => e ∈ entityIds)
      (map workspaceId (possibleWorkspaces authenticatedUser memberOf)).
Proof.
  intros Hcur Hteams H.
  apply handleSelectAllWorkspacesChange_Return in H as (i & o & Hi & Ho & ->).
  destruct (findIndex_Some _ _ _ Hi) as (o0 & Ho0 & Hido & Hfind & _).
  rewrite Ho in Ho0. injection Ho0 as <-.
  rewrite Hcur in Hfind. injection Hfind as <-.
  set (possible := map workspaceId
                     (possibleWorkspaces authenticatedUser memberOf)).
  set (previous :=
         filter (fun w => length (teamsWith w (teams linearOrganization)) =
                          length (teams linearOrganization)) possible).
  set (pick := fun team =>
         {| id := id team; name := name team;
            workspaceEntityIds :=
              reselect (workspaceEntityIds team) previous entityIds |}).
  set (o' := {| linearOrgId := linearOrgId linearOrganization;
                linearOrgName := linearOrgName linearOrganization;
                teams := map pick (teams linearOrganization) |}).
  assert (Hprev : forall e, e ∈ previous <->
            e ∈ possible /\
            forall t, t ∈ teams linearOrganization ->
                      e ∈ workspaceEntityIds t).
  { intros e. unfold previous. rewrite list_elem_of_filter.
    rewrite (teamsWith_all e _ _ eq_refl). tauto. }
  assert (Hin : forall team e,
            team ∈ teams linearOrganization -> e ∈ entityIds ->
            e ∈ workspaceEntityIds (pick team)).
  { intros team e Hteam He. simpl. apply elem_of_reselect.
    destruct (decide (e ∈ previous)) as [Hp | Hp].
    - left. split; [| tauto]. apply Hprev in Hp as [_ Hp]. now apply Hp.
    - right. now split. }
  exists o'. split; [| split].
  - pose proof (findIndex_insert _ prev i o' Hi Hido) as Hi'.
    destruct (findIndex_Some _ _ _ Hi') as (x & Hx & _ & Hfind & _).
    rewrite list_lookup_insert_eq in Hx
      by now apply (lookup_lt_Some prev i linearOrganization).
    now injection Hx as <-.
  - intros t e Ht He. simpl in Ht.
    apply list_elem_of_fmap in Ht as (team & -> & Hteam). now apply Hin.
  - unfold selectedForOrganization. fold possible.
    apply filter_ext_in. intros e Hposs.
    split.
    + intros Hlen. symmetry in Hlen.
      rewrite (teamsWith_all e _ _ eq_refl) in Hlen.
      destruct (decide (e ∈ entityIds)) as [|Hne]; [assumption |]. exfalso.
      assert (Hall : forall team, team ∈ teams linearOrganization ->
                e ∈ workspaceEntityIds team /\ e ∉ previous).
      { intros team Hteam.
        assert (Hpick : pick team ∈ teams o')
          by (simpl; apply list_elem_of_fmap; eauto).
        specialize (Hlen _ Hpick). simpl in Hlen.
        apply elem_of_reselect in Hlen. tauto. }
      destruct (teams linearOrganization) as [|team0 rest] eqn:Hts;
        [contradiction |].
      destruct (Hall team0 (list_elem_of_here _ _)) as [_ Hnp].
      apply Hnp, Hprev. split; [exact Hposs |].
      intros t Ht. now apply Hall.
    + intros He. symmetry. apply (teamsWith_all e _ _ eq_refl).
      intros t Ht. simpl in Ht.
      apply list_elem_of_fmap in Ht as (team & -> & Hteam). now apply Hin.
Qed.


(** *** From the integrations to the table and back *)

Lemma mapC_Return {A B} (f : A -> Completion JsError B) (l : list A)
    (r : list B) :
  mapC f l = Return r <-> Forall2 (fun x y => f x = Return y) l r.
Proof.
  revert r. induction l as [|x l IH]; intros r; simpl.
  - split.
    + intros [= <-]. constructor.
    + intros H. inversion H. reflexivity.
  - split.
    + destruct (f x) as [y|] eqn:Hy; [| discriminate]. simpl.
      destruct (mapC f l) as [ys|] eqn:Hys; [| discriminate]. simpl.
      intros [= <-]. constructor; [exact Hy | now apply IH].
    + intros H. inversion H as [|x' y l' ys Hy Hys]; subst.
      rewrite Hy. simpl. apply IH in Hys. rewrite Hys. reflexivity.
Qed.

Lemma mapLinearOrganization_found (linearOrgIdKey : string)
    (linearIntegrations : list LinearIntegration)
    (organization : LinearOrganization) (integration : LinearIntegration) :
  find (isIntegrationOf linearOrgIdKey organization) linearIntegrations
    = Some integration ->
  mapLinearOrganizationToLinearOrganizationTeamsWithWorkspaces linearOrgIdKey
    linearIntegrations organization =
  Return
    {| linearOrgId := organizationId organization;
       linearOrgName := organizationName organization;
       teams :=
         map (fun team =>
                {| id := teamId team;
                   name := teamName team;
                   workspaceEntityIds :=
                     map (fun s => entityId (workspaceEntity s))
                         (filter (fun s => syncsWithTeam team s = true)
                                 (syncedWithWorkspaces integration)) |})
             (organizationTeams organization) |}.
Proof.
  intros Hfind.
  unfold mapLinearOrganizationToLinearOrganizationTeamsWithWorkspaces.
  match goal with
  | |- context [mapC ?f ?l] =>
      assert (Hmap : mapC f l =
                Return (map (fun team =>
                  {| id := teamId team;
                     name := teamName team;
                     workspaceEntityIds :=
                       map (fun s => entityId (workspaceEntity s))
                           (filter (fun s => syncsWithTeam team s = true)
                                   (syncedWithWorkspaces integration)) |}) l))
  end.
  { apply mapC_Return. induction (organizationTeams organization);
      constructor; [| assumption].
    unfold withWorkspaces. now rewrite Hfind. }
  rewrite Hmap. reflexivity.
Qed.

(** X7: an organization without teams maps to itself, without teams,
    whatever the integrations are; an organization with a team maps when
    some integration holds its id under the Linear organization id key,
    and the call throws a [TypeError] when none does. The result keeps
    the id and the name of the organization and the ids and names of its
    teams, in order. *)
Theorem mapLinearOrganization_teams (linearOrgIdKey : string)
    (linearIntegrations : list LinearIntegration)
    (organization : LinearOrganization) :
  match mapLinearOrganizationToLinearOrganizationTeamsWithWorkspaces
          linearOrgIdKey linearIntegrations organization with
  | Throw e =>
      e = TypeError "Cannot read properties of undefined" /\
      organizationTeams organization <> [] /\
      forall i, i ∈ linearIntegrations ->
                isIntegrationOf linearOrgIdKey organization i = false
  | Return r =>
      (organizationTeams organization = [] \/
       exists i, i ∈ linearIntegrations /\
                 isIntegrationOf linearOrgIdKey organization i = true) /\
      linearOrgId r = organizationId organization /\
      linearOrgName r = organizationName organization /\
      map id (teams r) = map teamId (organizationTeams organization) /\
      map name (teams r) = map teamName (organizationTeams organization)
  end.
Proof.
  destruct (find (isIntegrationOf linearOrgIdKey organization)
              linearIntegrations) as [integration|] eqn:Hfind.
  - rewrite (mapLinearOrganization_found _ _ _ _ Hfind). simpl.
    rewrite !map_map. simpl. split; [| now repeat split].
    right. exists integration. apply find_some in Hfind as [Hin Hp].
    split; [now apply list_elem_of_In | exact Hp].
  - unfold mapLinearOrganizationToLinearOrganizationTeamsWithWorkspaces.
    destruct (organizationTeams organization) as [|team rest] eqn:Hts.
    + simpl. split; [now left | now repeat split].
    + simpl. unfold withWorkspaces. rewrite Hfind. simpl.
      split; [reflexivity |]. split; [discriminate |].
      intros i Hi. apply list_elem_of_In in Hi.
      exact (find_none _ _ Hfind i Hi).
Qed.

(** X8: [mapLinearOrganizationToSyncWithWorkspacesInputVariable] gives
    one entry for each possible workspace that some team syncs with, in
    the order of the possible workspaces; the team ids of an entry are the
    ids of the teams that sync with its workspace, and are never none. A
    workspace that no team syncs with has no entry. *)
Theorem syncWithWorkspaces_entries
    (linearOrganization : LinearOrganizationTeamsWithWorkspaces)
    (possible : list Workspace) :
  let entries :=
    mapLinearOrganizationToSyncWithWorkspacesInputVariable
      linearOrganization possible in
  map workspaceEntityId entries `sublist_of` map workspaceId possible /\
  (forall entry, entry ∈ entries ->
     syncedTeamIds entry <> [] /\
     forall teamId, teamId ∈ syncedTeamIds entry <->
       exists t, t ∈ teams linearOrganization /\ id t = teamId /\
                 workspaceEntityId entry ∈ workspaceEntityIds t) /\
  (forall w, w ∈ possible ->
     (exists entry, entry ∈ entries /\
                    workspaceEntityId entry = workspaceId w) <->
     (exists t, t ∈ teams linearOrganization /\
                workspaceId w ∈ workspaceEntityIds t)).
Proof.
  intros entries. unfold entries,
    mapLinearOrganizationToSyncWithWorkspacesInputVariable.
  assert (Hsome : forall e,
    existsb (fun t => includes e (workspaceEntityIds t))
            (teams linearOrganization) = true <->
    exists t, t ∈ teams linearOrganization /\ e ∈ workspaceEntityIds t).
  { intros e. rewrite existsb_exists. split.
    - intros (t & Hin & Hinc). exists t.
      split; [now apply list_elem_of_In | now apply includes_true].
    - intros (t & Hin & Hinc). exists t.
      split; [now apply list_elem_of_In | now apply includes_true]. }
  assert (Hteams : forall e teamId,
    teamId ∈ map id (teamsWith e (teams linearOrganization)) <->
    exists t, t ∈ teams linearOrganization /\ id t = teamId /\
              e ∈ workspaceEntityIds t).
  { intros e teamId. rewrite list_elem_of_fmap. unfold teamsWith. split.
    - intros (t & -> & Ht). apply list_elem_of_filter in Ht as [Hinc Hin].
      exists t. apply includes_true in Hinc. tauto.
    - intros (t & Hin & <- & Hinc). exists t. split; [reflexivity |].
      apply list_elem_of_filter. split; [now apply includes_true | exact Hin]. }
  split; [| split].
  - rewrite map_map. simpl.
    match goal with
    | |- map _ (filter ?P _) `sublist_of` _ =>
        change (map workspaceId (filter P possible)
                  `sublist_of` map workspaceId possible)
    end.
    apply (fmap_sublist workspaceId), sublist_filter.
  - intros entry Hentry.
    apply list_elem_of_fmap in Hentry as (w & -> & Hw).
    apply list_elem_of_filter in Hw as [Hex _]. simpl.
    split; [| apply Hteams].
    apply Hsome in Hex as (t & Hin & Hinc).
    intros Hnil.
    assert (Hid : id t ∈ map id (teamsWith (workspaceId w)
                                   (teams linearOrganization)))
      by (apply Hteams; eauto).
    rewrite Hnil in Hid. now apply elem_of_nil in Hid.
  - intros w Hw. rewrite <- Hsome. split.
    + intros (entry & Hentry & Hid).
      apply list_elem_of_fmap in Hentry as (w' & -> & Hw').
      apply list_elem_of_filter in Hw' as [Hex _]. simpl in Hid.
      now rewrite <- Hid.
    + intros Hex. eexists. split.
      * apply list_elem_of_fmap. exists w. split; [reflexivity |].
        apply list_elem_of_filter. split; [exact Hex | exact Hw].
      * reflexivity.
Qed.



Example acme_table :
  mapLinearOrganizationToLinearOrganizationTeamsWithWorkspaces
    "linear-org-id" [acmeIntegration] acmeLinear = Return acmeTable.
Proof. vm_compute. reflexivity. Qed.

Example acme_input_variable :
  mapLinearOrganizationToSyncWithWorkspacesInputVariable acmeTable
    [userU1; orgO1] =
  [ {| workspaceEntityId := "u1"; syncedTeamIds := ["eng"; "des"] |};
    {| workspaceEntityId := "o1"; syncedTeamIds := ["eng"] |} ].
Proof. vm_compute. reflexivity. Qed.

Example acme_after_team_change :
  afterTeamChange =
  [ {| linearOrgId := "lin-acme";
       linearOrgName := "Acme";
       teams :=
         [ {| id := "eng"; name := "Engineering";
              workspaceEntityIds := ["u1"; "o1"] |};
           {| id := "des"; name := "Design";
              workspaceEntityIds := ["o1"] |} ] |} ].
Proof. vm_compute. reflexivity. Qed.

Example acme_after_organization_change :
  afterOrganizationChange =
  [ {| linearOrgId := "lin-acme";
       linearOrgName := "Acme";
       teams :=
         [ {| id := "eng"; name := "Engineering";
              workspaceEntityIds := ["o1"] |};
           {| id := "des"; name := "Design";
              workspaceEntityIds := ["o1"] |} ] |} ].
Proof. vm_compute. reflexivity. Qed.


Lemma handleSelectWorkspaceChange_idempotent_witness :
  handleSelectWorkspaceChange acmeTable "des" ["o1"] afterTeamChange
    = Return afterTeamChange.
Proof.
  apply (handleSelectWorkspaceChange_idempotent acmeTable "des" ["o1"]
           [acmeTable] afterTeamChange).
  vm_compute. reflexivity.
Defined.

Lemma handleSelectWorkspaceChange_shown_witness :
  exists o',
    find (fun o => String.eqb (linearOrgId o) (linearOrgId acmeTable))
         afterTeamChange = Some o' /\
    forall possible : list Workspace,
      selectedForTeam possible o' "des" =
      filter (fun e => e ∈ ["o1"]) (map workspaceId possible).
Proof.
  apply (handleSelectWorkspaceChange_shown acmeTable "des" ["o1"]
           [acmeTable] afterTeamChange).
  vm_compute. reflexivity.
Defined.

Lemma handleSelectAllWorkspacesChange_shown_witness :
  exists o',
    find (fun o => String.eqb (linearOrgId o) (linearOrgId acmeTable))
         afterOrganizationChange = Some o' /\
    (forall t e, t ∈ teams o' -> e ∈ ["o1"] -> e ∈ workspaceEntityIds t) /\
    selectedForOrganization (possibleWorkspaces userU1 [orgO1]) o' =
    filter (fun e => e ∈ ["o1"])
      (map workspaceId (possibleWorkspaces userU1 [orgO1])).
Proof.
  apply (handleSelectAllWorkspacesChange_shown userU1 [orgO1] acmeTable
           ["o1"] [acmeTable] afterOrganizationChange).
  - vm_compute. reflexivity.
  - discriminate.
  - vm_compute. reflexivity.
Defined.


End LinearTeamsFacts.

(** ** The types table *)

Section TypesTableFacts.
Import OntologyTypes TypesTable.

Lemma differ_false (a b : option string) : differ a b = false <-> a = b.
Proof.
  destruct a as [x|], b as [y|]; simpl; split; try congruence.
  - intros H. apply negb_false_iff, String.eqb_eq in H. now subst.
  - intros [= ->]. apply negb_false_iff, String.eqb_refl.
Qed.

Lemma at_Some {A} (l : list A) (index : Z) :
  is_Some (at_ l index) <-> 0 <= index < Z.of_nat (length l).
Proof.
  unfold at_. destruct (Z.ltb_spec index 0) as [Hneg | Hpos].
  - split; [intros [x Hx]; discriminate | lia].
  - rewrite lookup_lt_is_Some. lia.
Qed.

Lemma at_None {A} (l : list A) (index : Z) :
  at_ l index = None <-> ~ (0 <= index < Z.of_nat (length l)).
Proof. rewrite <- at_Some, eq_None_not_Some. tauto. Qed.

Lemma typesTableColumns_length (tableKind : TableKind) :
  Z.of_nat (length (typesTableColumns tableKind)) = columnCount tableKind.
Proof. destruct tableKind; reflexivity. Qed.

(** X10: the cell getter returns a cell exactly for a row index within
    the rows and a column index within the columns, of which there are
    four in the table of all types and three otherwise; a row index
    outside the rows throws the error "link not found", whatever the
    column, and a column index outside the columns, on a row that exists,
    throws "column not found". *)
Theorem createGetCellContent_bounds (tableKind : TableKind)
    (rows : list TypesTableRow) (colIndex rowIndex : Z) :
  match createGetCellContent tableKind rows (colIndex, rowIndex) with
  | Return _ =>
      0 <= rowIndex < Z.of_nat (length rows) /\
      0 <= colIndex < columnCount tableKind
  | Throw e =>
      (e = MkError "link not found" /\
       ~ (0 <= rowIndex < Z.of_nat (length rows))) \/
      (e = MkError "column not found" /\
       0 <= rowIndex < Z.of_nat (length rows) /\
       ~ (0 <= colIndex < columnCount tableKind))
  end.
Proof.
  unfold createGetCellContent.
  destruct (at_ rows rowIndex) as [row|] eqn:Hrow.
  - assert (Hr : 0 <= rowIndex < Z.of_nat (length rows))
      by (apply at_Some; eauto).
    destruct (at_ (typesTableColumns tableKind) colIndex) as [column|] eqn:Hcol.
    + assert (Hc : 0 <= colIndex < columnCount tableKind).
      { rewrite <- typesTableColumns_length. apply at_Some. eauto. }
      destruct (id column); now split.
    + right. split; [reflexivity |]. split; [exact Hr |].
      rewrite <- typesTableColumns_length. now apply at_None.
  - left. split; [reflexivity |]. now apply at_None.
Qed.

Section Rows.

Variable activeWorkspaceAccountId : option string.
Variable isLinkTypeLookup : option (gmap string bool).
Variable namespaces : option (list Namespace).
Variable isTypeArchived : TypeWithMetadata -> bool.

Let row := toRow activeWorkspaceAccountId isLinkTypeLookup namespaces
             isTypeArchived.
Let rows := filteredRows activeWorkspaceAccountId isLinkTypeLookup namespaces
              isTypeArchived.

Lemma external_false (type : TypeWithMetadata) :
  external (row type) = false <->
  fetchedAt (custom (metadata type)) = None /\
  ownedById (custom (metadata type)) = activeWorkspaceAccountId.
Proof.
  unfold row, toRow, isExternalOntologyElementMetadata. simpl.
  destruct (fetchedAt (custom (metadata type))) as [f|]; simpl.
  - split; [discriminate | intros [[=] _]].
  - rewrite differ_false. tauto.
Qed.

Lemma fetched_no_namespace (type : TypeWithMetadata) :
  is_Some (fetchedAt (custom (metadata type))) ->
  external (row type) = true /\ rowNamespaceShortname (row type) = None.
Proof.
  intros [f Hf]. unfold row, toRow, isExternalOntologyElementMetadata.
  simpl. rewrite Hf. simpl. split; [reflexivity |].
  destruct namespaces as [ns|]; [| reflexivity].
  destruct (find _ ns) as [n|] eqn:Hfind; [| reflexivity].
  apply find_some in Hfind as [_ Hn]. discriminate Hn.
Qed.

(** X11: what the rows of the table are. In the initial filter state
    there is one row per type, in order. A type whose metadata carries
    [fetchedAt] is listed as external and without a namespace, also when
    it carries the active workspace as [ownedById]. When the filter
    leaves out the global types, every row is of a type without
    [fetchedAt] whose [ownedById] is the active workspace; when it leaves
    out the archived types, no row is of an archived type. *)
Theorem filteredRows_shown (types : list TypeWithMetadata)
    (filterState : FilterState) :
  rows types initialFilterState = map row types /\
  (forall type,
     is_Some (fetchedAt (custom (metadata type))) ->
     external (row type) = true /\
     rowNamespaceShortname (row type) = None) /\
  (forall r, r ∈ rows types filterState ->
     exists type, type ∈ types /\ r = row type /\
       (includeGlobal filterState = false ->
        fetchedAt (custom (metadata type)) = None /\
        ownedById (custom (metadata type)) = activeWorkspaceAccountId) /\
       (includeArchived filterState = false ->
        isTypeArchived type = false)).
Proof.
  split; [| split].
  - unfold rows, filteredRows. apply filter_all. reflexivity.
  - exact fetched_no_namespace.
  - intros r Hr. unfold rows, filteredRows in Hr.
    apply list_elem_of_filter in Hr as [Hshown Hr].
    apply list_elem_of_fmap in Hr as (type & -> & Htype).
    exists type. split; [exact Htype |]. split; [reflexivity |].
    unfold shown in Hshown. apply andb_true_iff in Hshown as [Hg Ha].
    split.
    + intros Hoff. rewrite Hoff in Hg. apply external_false.
      now apply negb_true_iff in Hg.
    + intros Hoff. rewrite Hoff in Ha. now apply negb_true_iff in Ha.
Qed.

End Rows.

End TypesTableFacts.

(** ** The accounts hook *)

Section GetAccountsFacts.
Import GetAccounts.

Lemma has_true (k : string) (o : Js.object) :
  Js.has k o = true <-> is_Some (o !! k).
Proof.
  unfold Js.has. destruct (o !! k); split; eauto; try discriminate.
  intros [x Hx]. discriminate.
Qed.

(** X12: the accounts that the hook returns are, in order, the accounts
    of the query that have a [preferredName] property; the name of each
    is the value of that property, never the shortname the code falls
    back to; accounts without the property (the org accounts) are left
    out, and before the query has loaded there are no accounts. *)
Theorem useGetAccounts_users (d : GetAccountsQuery) :
  useGetAccounts None = [] /\
  map accountEntityId (useGetAccounts (Some d)) =
    map entityId
      (filter (fun a => is_Some (properties a !! "preferredName"))
              (accounts d)) /\
  forall r, r ∈ useGetAccounts (Some d) ->
    exists a preferredName,
      a ∈ accounts d /\
      properties a !! "preferredName" = Some preferredName /\
      accountEntityId r = entityId a /\
      name r = preferredName /\
      shortname r = Js.get "shortname" (properties a).
Proof.
  split; [reflexivity |]. unfold useGetAccounts. split.
  - rewrite map_map. simpl. f_equal.
    apply list_filter_iff. intros a. apply has_true.
  - intros r Hr. apply list_elem_of_fmap in Hr as (a & -> & Ha).
    apply list_elem_of_filter in Ha as [Hhas Ha]. simpl.
    rewrite Hhas. pose proof Hhas as Hsome.
    apply has_true in Hsome as [v Hv].
    exists a, v. unfold Js.get at 1. rewrite Hv. now repeat split.
Qed.

End GetAccountsFacts.

(** ** The contents of a page: which entity the error names *)

Section PageContentsMore.
Import PageContents.

(** X13: when several entities of the contents are missing, the error
    names the first of them in the order of the contents list. *)
Theorem contents_names_first_missing (db : DBAdapter)
    (found : list ContentRef) (missing : ContentRef)
    (rest : list ContentRef) :
  (forall c, c ∈ found ->
     is_Some (getEntity db (namespaceId c) (entityId c))) ->
  getEntity db (namespaceId missing) (entityId missing) = None ->
  contents db (found ++ missing :: rest)%list =
    Throw (Apollo {| message := "entity " +:+ entityId missing
                                  +:+ " not found in namespace "
                                  +:+ namespaceId missing;
                     code := "NOT_FOUND" |}).
Proof.
  intros Hfound Hmissing. rewrite contents_unfold.
  assert (Hloop : forall (before l : list ContentRef),
    (forall c, c ∈ l -> is_Some (fetch db c)) ->
    forEachFound (before ++ l ++ missing :: rest)
      (map (fetch db) (l ++ missing :: rest)) (length before)
    = Throw (notFound missing)).
  { intros before l. revert before.
    induction l as [|c l IH]; intros before Hl; simpl.
    - unfold fetch at 1. rewrite Hmissing.
      rewrite lookup_app_r by lia. rewrite Nat.sub_diag. reflexivity.
    - destruct (Hl c (list_elem_of_here _ _)) as [b Hb]. rewrite Hb.
      specialize (IH (before ++ [c])%list).
      rewrite length_app, Nat.add_1_r in IH. rewrite <- app_assoc in IH.
      apply IH. intros c' Hc'. apply Hl. now right. }
  specialize (Hloop [] found Hfound). simpl in Hloop.
  now rewrite Hloop.
Qed.

Lemma contents_names_first_missing_witness :
  contents exampleDb
    ([{| namespaceId := "ns1"; entityId := "b2" |}]
     ++ {| namespaceId := "ns1"; entityId := "b9" |}
     :: [{| namespaceId := "ns2"; entityId := "b1" |}])%list =
    Throw (Apollo {| message := "entity b9 not found in namespace ns1";
                     code := "NOT_FOUND" |}).
Proof.
  apply (contents_names_first_missing exampleDb
           [{| namespaceId := "ns1"; entityId := "b2" |}]
           {| namespaceId := "ns1"; entityId := "b9" |}
           [{| namespaceId := "ns2"; entityId := "b1" |}]).
  - intros c Hc. apply elem_of_cons in Hc as [-> | Hc];
      [eexists; reflexivity | now apply elem_of_nil in Hc].
  - reflexivity.
Defined.

End PageContentsMore.

(** ** The settings menu and its breadcrumbs *)

Section SettingsLayoutFacts.
Import SettingsLayout.
Local Open Scope nat_scope.

(** *** The hrefs of the menu *)

Lemma append_inv_head (a b c : string) : a +:+ b = a +:+ c -> b = c.
Proof.
  induction a as [|x a IH]; rewrite ?append_nil_l, ?append_cons.
  - auto.
  - intros [= H]. now apply IH.
Qed.

Lemma slashFree_general : slashFree "general".
Proof. repeat split; discriminate. Qed.

Lemma slashFree_members : slashFree "members".
Proof. repeat split; discriminate. Qed.

Lemma general_inj (s s' : string) :
  organizationsGeneral s = organizationsGeneral s' -> s = s'.
Proof.
  unfold organizationsGeneral. intros H. apply append_inv_head in H.
  change (s +:+ String "/" "general" = s' +:+ String "/" "general") in H.
  now apply split_last_slash in H; auto using slashFree_general.
Qed.

Lemma members_inj (s s' : string) :
  organizationsMembers s = organizationsMembers s' -> s = s'.
Proof.
  unfold organizationsMembers. intros H. apply append_inv_head in H.
  change (s +:+ String "/" "members" = s' +:+ String "/" "members") in H.
  now apply split_last_slash in H; auto using slashFree_members.
Qed.

Lemma organization_inj (s s' : string) :
  organizationsOf s = organizationsOf s' -> s = s'.
Proof. apply append_inv_head. Qed.

Lemma general_not_members (s s' : string) :
  organizationsGeneral s <> organizationsMembers s'.
Proof.
  unfold organizationsGeneral, organizationsMembers. intros H.
  apply append_inv_head in H.
  change (s +:+ String "/" "general" = s' +:+ String "/" "members") in H.
  apply split_last_slash in H;
    auto using slashFree_general, slashFree_members.
  destruct H as [_ H]. discriminate H.
Qed.

Lemma organization_not_general (s s' : string) :
  slashFree s -> organizationsOf s <> organizationsGeneral s'.
Proof.
  unfold organizationsOf, organizationsGeneral. intros Hs H.
  apply append_inv_head in H. subst s.
  now apply (slashFree_app_slash s' "general").
Qed.

Lemma organization_not_members (s s' : string) :
  slashFree s -> organizationsOf s <> organizationsMembers s'.
Proof.
  unfold organizationsOf, organizationsMembers. intros Hs H.
  apply append_inv_head in H. subst s.
  now apply (slashFree_app_slash s' "members").
Qed.

Lemma organizations_not_below (x : string) :
  "/settings/organizations" <> "/settings/organizations/" +:+ x.
Proof. intros H. cbv in H. discriminate H. Qed.

Lemma organizationsOf_not_empty (s : string) : organizationsOf s <> "".
Proof. intros H. cbv in H. discriminate H. Qed.


(** *** Sorting keeps the organizations *)

Lemma insertSorted_Permutation {A} (compare : A -> A -> Z) (x : A)
    (l : list A) :
  insertSorted compare x l ≡ₚ x :: l.
Proof.
  induction l as [|y l IH]; simpl; [reflexivity |].
  destruct (compare x y <=? 0)%Z; [reflexivity |].
  rewrite IH. apply Permutation_swap.
Qed.

Lemma sort_Permutation {A} (compare : A -> A -> Z) (l : list A) :
  sort compare l ≡ₚ l.
Proof.
  induction l as [|x l IH]; simpl; [reflexivity |].
  now rewrite insertSorted_Permutation, IH.
Qed.

(** *** Finding the page of a path *)

Lemma eqb_false (a b : string) : a <> b -> String.eqb a b = false.
Proof. apply String.eqb_neq. Qed.

Lemma find_withChildren (menu l : list SidebarItemData) (h : string) :
  find (isPageAt h) (map (withChildren menu) l)
  = withChildren menu <$> find (isPageAt h) l.
Proof.
  induction l as [|x l IH]; simpl; [reflexivity |].
  change (isPageAt h (withChildren menu x)) with (isPageAt h x).
  destruct (isPageAt h x); [reflexivity | apply IH].
Qed.

(** The loop reads the [href], the [label] and the [parentHref] of the
    items, which filling in their [children] leaves as they are. *)
Lemma crumbsFrom_withChildren (fuel : nat) (menu l : list SidebarItemData)
    (h : string) (crumbs : list Crumb) :
  crumbsFrom fuel (map (withChildren menu) l) h crumbs
  = crumbsFrom fuel l h crumbs.
Proof.
  revert h crumbs. induction fuel as [|fuel IH]; intros h crumbs; simpl;
    [reflexivity |].
  rewrite find_withChildren.
  destruct (find (isPageAt h) l) as [page|]; simpl; [| reflexivity].
  destruct (parentHref page) as [parent|]; [| reflexivity].
  destruct (String.eqb parent ""); [reflexivity | apply IH].
Qed.

Lemma unique_shortname (org o : Org) (l : list Org) :
  NoDup (map shortname (o :: l)) -> org ∈ o :: l ->
  shortname o = shortname org -> org = o.
Proof.
  intros Hnd Hin Hs. apply elem_of_cons in Hin as [Hin | Hin]; [exact Hin |].
  simpl in Hnd. apply NoDup_cons in Hnd as [Hnot _]. exfalso. apply Hnot.
  rewrite Hs. apply list_elem_of_fmap. now exists org.
Qed.

Lemma find_members (org : Org) (l : list Org) :
  NoDup (map shortname l) -> Forall (fun o => slashFree (shortname o)) l ->
  org ∈ l ->
  find (isPageAt (organizationsMembers (shortname org)))
       (flat_map organizationItems l)
  = organizationItems org !! 2.
Proof.
  induction l as [|o l IH]; intros Hnd Hfree Hin.
  - now apply elem_of_nil in Hin.
  - cbn [flat_map organizationItems app find]. unfold isPageAt at 1 2 3.
    cbn [href activeIfHrefStartsWith].
    fold (organizationsOf (shortname o)).
    fold (organizationsGeneral (shortname o)).
    fold (organizationsMembers (shortname o)).
    rewrite (eqb_false _ _ (general_not_members _ _)).
    rewrite (eqb_false (organizationsOf _) (organizationsMembers _)).
    2:{ apply organization_not_members. now inversion Hfree. }
    rewrite andb_false_r. cbn [orb].
    destruct (String.eqb_spec (organizationsMembers (shortname o))
                (organizationsMembers (shortname org))) as [E | E].
    + apply members_inj in E.
      now rewrite (unique_shortname org o l Hnd Hin E).
    + apply IH.
      * simpl in Hnd. now apply NoDup_cons in Hnd.
      * now inversion Hfree.
      * apply elem_of_cons in Hin as [-> | Hin]; [now destruct E | exact Hin].
Qed.

Lemma find_general (org : Org) (l : list Org) :
  NoDup (map shortname l) -> Forall (fun o => slashFree (shortname o)) l ->
  org ∈ l ->
  find (isPageAt (organizationsGeneral (shortname org)))
       (flat_map organizationItems l)
  = organizationItems org !! 0.
Proof.
  induction l as [|o l IH]; intros Hnd Hfree Hin.
  - now apply elem_of_nil in Hin.
  - cbn [flat_map organizationItems app find]. unfold isPageAt at 1 2 3.
    cbn [href activeIfHrefStartsWith].
    fold (organizationsOf (shortname o)).
    fold (organizationsGeneral (shortname o)).
    fold (organizationsMembers (shortname o)).
    destruct (String.eqb_spec (organizationsGeneral (shortname o))
                (organizationsGeneral (shortname org))) as [E | E].
    + apply general_inj in E.
      now rewrite (unique_shortname org o l Hnd Hin E).
    + rewrite (eqb_false (organizationsOf _) (organizationsGeneral _)).
      2:{ apply organization_not_general. now inversion Hfree. }
      rewrite andb_false_r. cbn [orb].
      rewrite (eqb_false (organizationsMembers _) (organizationsGeneral _)).
      2:{ intros H. now apply (general_not_members _ _ (eq_sym H)). }
      apply IH.
      * simpl in Hnd. now apply NoDup_cons in Hnd.
      * now inversion Hfree.
      * apply elem_of_cons in Hin as [-> | Hin]; [now destruct E | exact Hin].
Qed.

Lemma find_organization (org : Org) (l : list Org) :
  NoDup (map shortname l) -> Forall (fun o => slashFree (shortname o)) l ->
  org ∈ l ->
  find (isPageAt (organizationsOf (shortname org)))
       (flat_map organizationItems l)
  = organizationItems org !! 0.
Proof.
  induction l as [|o l IH]; intros Hnd Hfree Hin.
  - now apply elem_of_nil in Hin.
  - assert (Hfree' : slashFree (shortname org)).
    { rewrite Forall_forall in Hfree. now apply Hfree. }
    cbn [flat_map organizationItems app find]. unfold isPageAt at 1 2 3.
    cbn [href activeIfHrefStartsWith].
    fold (organizationsOf (shortname o)).
    fold (organizationsGeneral (shortname o)).
    fold (organizationsMembers (shortname o)).
    rewrite (eqb_false (organizationsGeneral _) (organizationsOf _)).
    2:{ intros H. symmetry in H. revert H.
        now apply organization_not_general. }
    rewrite (eqb_false (organizationsOf (shortname o)) "").
    2:{ apply organizationsOf_not_empty. }
    rewrite (eqb_false (organizationsMembers _) (organizationsOf _)).
    2:{ intros H. symmetry in H. revert H.
        now apply organization_not_members. }
    cbn [orb negb andb].
    destruct (String.eqb_spec (organizationsOf (shortname o))
                (organizationsOf (shortname org))) as [E | E].
    + apply organization_inj in E.
      now rewrite (unique_shortname org o l Hnd Hin E).
    + apply IH.
      * simpl in Hnd. now apply NoDup_cons in Hnd.
      * now inversion Hfree.
      * apply elem_of_cons in Hin as [-> | Hin]; [now destruct E | exact Hin].
Qed.


Lemma find_below_organizations (x : string) (item : SidebarItemData)
    (items : list SidebarItemData) :
  href item = "/settings/organizations" ->
  activeIfHrefStartsWith item = None ->
  find (isPageAt ("/settings/organizations/" +:+ x)) (item :: items)
  = find (isPageAt ("/settings/organizations/" +:+ x)) items.
Proof.
  intros Hhref Hactive. cbn [find]. unfold isPageAt at 1.
  rewrite Hhref, Hactive.
  now rewrite (eqb_false _ _ (organizations_not_below x)).
Qed.

Lemma crumbsFrom_step (fuel : nat) (menu : list SidebarItemData)
    (h : string) (page : SidebarItemData) (crumbs : list Crumb) :
  find (isPageAt h) menu = Some page ->
  crumbsFrom (S fuel) menu h crumbs
  = let crumbs' :=
      {| id := href page; crumbHref := href page; title := label page |}
      :: crumbs in
    match parentHref page with
    | Some parent =>
        if String.eqb parent "" then Some crumbs'
        else crumbsFrom fuel menu parent crumbs'
    | None => Some crumbs'
    end.
Proof. intros H. simpl. now rewrite H. Qed.

(** *** The children of the items *)

Lemma positionsFrom_app {A} (i : nat) (p : A -> bool) (l1 l2 : list A) :
  positionsFrom i p (l1 ++ l2)%list
  = (positionsFrom i p l1 ++ positionsFrom (i + length l1) p l2)%list.
Proof.
  revert i. induction l1 as [|x l1 IH]; intros i; simpl.
  - now rewrite Nat.add_0_r.
  - rewrite IH. replace (S i + length l1) with (i + S (length l1)) by lia.
    now destruct (p x).
Qed.

Lemma positionsFrom_none {A} (i : nat) (p : A -> bool) (l : list A) :
  Forall (fun x => p x = false) l -> positionsFrom i p l = [].
Proof.
  intros H. revert i. induction H as [|x l Hx _ IH]; intros i; simpl;
    [reflexivity |].
  rewrite Hx. apply IH.
Qed.

Lemma flat_map_organizationItems_length (l : list Org) :
  length (flat_map organizationItems l) = 3 * length l.
Proof. induction l as [|o l IH]; simpl; lia. Qed.

Lemma Forall_flat_map_organizationItems (P : SidebarItemData -> Prop)
    (Q : Org -> Prop) (l : list Org) :
  (forall o, Q o -> Forall P (organizationItems o)) ->
  Forall Q l -> Forall P (flat_map organizationItems l).
Proof.
  intros H Hl. induction Hl as [|o l Ho _ IH]; [constructor |].
  cbn [flat_map]. apply Forall_app. split; [now apply H | exact IH].
Qed.

(** The items of the organization at the position [k] are the three
    from the position [3 * k] on. *)
Lemma flat_map_organizationItems_lookup (l : list Org) (k j : nat)
    (org : Org) :
  l !! k = Some org -> j < 3 ->
  flat_map organizationItems l !! (3 * k + j) = organizationItems org !! j.
Proof.
  revert k. induction l as [|o l IH]; intros k Hk Hj; [discriminate Hk |].
  destruct k as [|k].
  - injection Hk as ->. rewrite Nat.mul_0_r. cbn [flat_map].
    destruct j as [|[|[|j]]]; try lia; reflexivity.
  - replace (3 * S k + j) with (S (S (S (3 * k + j)))) by lia.
    cbn [flat_map organizationItems app]. simpl lookup. now apply IH.
Qed.

Lemma organizations_positions (i : nat) (l : list Org) :
  positionsFrom i
    (fun child => equals (parentHref child) "/settings/organizations")
    (flat_map organizationItems l)
  = (fun k => i + 3 * k) <$> seq 0 (length l).
Proof.
  revert i. induction l as [|o l IH]; intros i; [reflexivity |].
  cbn [flat_map organizationItems app positionsFrom parentHref equals].
  change (String.eqb "/settings/organizations" "/settings/organizations")
    with true.
  rewrite (eqb_false ("/settings/organizations/" +:+ shortname o)
             "/settings/organizations").
  2:{ intros H. symmetry in H. revert H. apply organizations_not_below. }
  rewrite IH. cbn [length seq fmap list_fmap]. f_equal; [lia |].
  rewrite <- seq_shift, <- list_fmap_compose.
  apply list_fmap_ext. intros ? k _. simpl. lia.
Qed.

Lemma isChildOf_organizations (item child : SidebarItemData) :
  href item = "/settings/organizations" ->
  activeIfHrefStartsWith item = None ->
  isChildOf item child
  = equals (parentHref child) "/settings/organizations".
Proof.
  intros Hhref Hactive. unfold isChildOf. rewrite Hhref, Hactive.
  apply orb_false_r.
Qed.

Lemma positionsFrom_ext {A} (i : nat) (p q : A -> bool) (l : list A) :
  (forall x, p x = q x) -> positionsFrom i p l = positionsFrom i q l.
Proof.
  intros H. revert i. induction l as [|x l IH]; intros i; simpl;
    [reflexivity |].
  now rewrite H, IH.
Qed.

(** X14: The menu holds the Organizations item and then three items for
    each organization, and the children of the Organizations item are the
    first item of every organization, at the positions 1, 4, 7, ..., in
    the order of the menu, whatever the organizations are: the General
    and Members items are not among them. *)
Theorem generateMenuLinks_organizations
    (localeCompare : string -> string -> Z) (organizations : list Org) :
  let menu := generateMenuLinks localeCompare organizations in
  length menu = 1 + 3 * length organizations
  /\ menu !! 0
     = Some {| label := "Organizations";
               href := "/settings/organizations";
               activeIfHrefStartsWith := None;
               parentHref := None;
               icon := Some PeopleGroupIcon;
               children :=
                 (fun k => 1 + 3 * k) <$> seq 0 (length organizations) |}.
Proof.
  intros menu. unfold menu, generateMenuLinks.
  assert (Hlen : length (sort (fun a b => localeCompare (name a) (name b))
                           organizations) = length organizations).
  { apply Permutation_length, sort_Permutation. }
  split.
  - rewrite length_map. cbn [length].
    now rewrite flat_map_organizationItems_length, Hlen.
  - cbn [map lookup list_lookup]. unfold withChildren at 1.
    cbn [label href activeIfHrefStartsWith parentHref icon].
    do 2 f_equal. cbn [positionsFrom].
    rewrite isChildOf_organizations by reflexivity.
    cbn [parentHref equals].
    rewrite (positionsFrom_ext _ (isChildOf _)
               (fun child =>
                  equals (parentHref child) "/settings/organizations"))
      by (intros child; now apply isChildOf_organizations).
    now rewrite organizations_positions, Hlen.
Qed.

Section Generated.

Variable localeCompare : string -> string -> Z.
Variable organizations : list Org.

Hypothesis distinct : NoDup (map shortname organizations).
Hypothesis slashFree_shortnames :
  Forall (fun o => slashFree (shortname o)) organizations.

Let sorted : list Org :=
  sort (fun a b => localeCompare (name a) (name b)) organizations.

Lemma sorted_distinct : NoDup (map shortname sorted).
Proof.
  unfold sorted. change (@map Org string) with (@fmap list _ Org string).
  now rewrite sort_Permutation.
Qed.

Lemma sorted_slashFree : Forall (fun o => slashFree (shortname o)) sorted.
Proof.
  rewrite Forall_forall. intros o Ho. unfold sorted in Ho.
  rewrite sort_Permutation in Ho.
  rewrite Forall_forall in slashFree_shortnames.
  now apply slashFree_shortnames.
Qed.

Lemma sorted_elem_of (org : Org) : org ∈ organizations -> org ∈ sorted.
Proof. intros H. unfold sorted. now rewrite sort_Permutation. Qed.

Lemma crumbs_of_organizations (fuel : nat) (crumbs : list Crumb) :
  crumbsFrom (S fuel) (generateMenuLinks localeCompare organizations)
    "/settings/organizations" crumbs
  = Some (organizationsCrumb :: crumbs).
Proof.
  unfold generateMenuLinks. rewrite crumbsFrom_withChildren. reflexivity.
Qed.

Lemma crumbs_of_organization (fuel : nat) (org : Org) (crumbs : list Crumb) :
  org ∈ organizations ->
  crumbsFrom (S (S fuel)) (generateMenuLinks localeCompare organizations)
    (organizationsOf (shortname org)) crumbs
  = Some (organizationsCrumb
          :: {| id := organizationsGeneral (shortname org);
                crumbHref := organizationsGeneral (shortname org);
                title := name org |}
          :: crumbs).
Proof.
  intros Hin.
  rewrite <- (crumbs_of_organizations fuel).
  unfold generateMenuLinks. rewrite !crumbsFrom_withChildren.
  erewrite crumbsFrom_step.
  2:{ unfold organizationsOf.
      rewrite find_below_organizations by reflexivity.
      apply (find_organization org);
        auto using sorted_distinct, sorted_slashFree, sorted_elem_of. }
  reflexivity.
Qed.

Lemma crumbs_of_general (fuel : nat) (org : Org) (crumbs : list Crumb) :
  org ∈ organizations ->
  crumbsFrom (S (S fuel)) (generateMenuLinks localeCompare organizations)
    (organizationsGeneral (shortname org)) crumbs
  = Some (organizationsCrumb
          :: {| id := organizationsGeneral (shortname org);
                crumbHref := organizationsGeneral (shortname org);
                title := name org |}
          :: crumbs).
Proof.
  intros Hin.
  rewrite <- (crumbs_of_organizations fuel).
  unfold generateMenuLinks. rewrite !crumbsFrom_withChildren.
  erewrite crumbsFrom_step.
  2:{ unfold organizationsGeneral.
      rewrite find_below_organizations by reflexivity.
      apply (find_general org);
        auto using sorted_distinct, sorted_slashFree, sorted_elem_of. }
  reflexivity.
Qed.

Lemma crumbs_of_members (fuel : nat) (org : Org) (crumbs : list Crumb) :
  org ∈ organizations ->
  crumbsFrom (S (S (S fuel))) (generateMenuLinks localeCompare organizations)
    (organizationsMembers (shortname org)) crumbs
  = Some (organizationsCrumb
          :: {| id := organizationsGeneral (shortname org);
                crumbHref := organizationsGeneral (shortname org);
                title := name org |}
          :: {| id := organizationsMembers (shortname org);
                crumbHref := organizationsMembers (shortname org);
                title := "Members" |}
          :: crumbs).
Proof.
  intros Hin.
  rewrite <- (crumbs_of_organization fuel) by exact Hin.
  unfold generateMenuLinks. rewrite !crumbsFrom_withChildren.
  erewrite crumbsFrom_step.
  2:{ unfold organizationsMembers.
      rewrite find_below_organizations by reflexivity.
      apply (find_members org);
        auto using sorted_distinct, sorted_slashFree, sorted_elem_of. }
  cbn [parentHref href label].
  fold (organizationsOf (shortname org)).
  now rewrite (eqb_false _ _ (organizationsOf_not_empty _)).
Qed.

(** X15: The breadcrumbs over the generated menu, for organizations with
    distinct shortnames that hold no slash. On the members page of an
    organization of the list the trail is Settings, Organizations, the
    organization by its name (which links to its general page), Members.
    On its general page the trail stops at the organization: the item
    labelled General never shows, the organization's own item being found
    first. The same trail shows on the path of the organization itself,
    and the organizations page shows Settings, Organizations. Three rounds
    of the loop suffice in each case. *)
Theorem breadcrumbs_of_generated_menu (fuel : nat) (org : Org) :
  org ∈ organizations -> 3 <= fuel ->
  let menu := generateMenuLinks localeCompare organizations in
  let organizationCrumb :=
    {| id := organizationsGeneral (shortname org);
       crumbHref := organizationsGeneral (shortname org);
       title := name org |} in
  breadcrumbs fuel menu (organizationsMembers (shortname org))
  = Some [settingsCrumb; organizationsCrumb; organizationCrumb;
          {| id := organizationsMembers (shortname org);
             crumbHref := organizationsMembers (shortname org);
             title := "Members" |}]
  /\ breadcrumbs fuel menu (organizationsGeneral (shortname org))
     = Some [settingsCrumb; organizationsCrumb; organizationCrumb]
  /\ breadcrumbs fuel menu (organizationsOf (shortname org))
     = Some [settingsCrumb; organizationsCrumb; organizationCrumb]
  /\ breadcrumbs fuel menu "/settings/organizations"
     = Some [settingsCrumb; organizationsCrumb].
Proof.
  intros Hin Hfuel menu organizationCrumb.
  destruct fuel as [|[|[|fuel]]]; try lia.
  unfold breadcrumbs, menu.
  change (String.eqb (organizationsMembers (shortname org)) "settings")
    with false.
  change (String.eqb (organizationsGeneral (shortname org)) "settings")
    with false.
  change (String.eqb (organizationsOf (shortname org)) "settings")
    with false.
  cbn [negb].
  rewrite (crumbs_of_members fuel org [] Hin).
  rewrite (crumbs_of_general (S fuel) org [] Hin).
  rewrite (crumbs_of_organization (S fuel) org [] Hin).
  rewrite (crumbs_of_organizations (S (S fuel)) []).
  repeat split.
Qed.

(** The tests of the [filter] on the items of an organization. *)
Lemma isChildOf_organization_other (org o : Org) :
  slashFree (shortname o) -> shortname o <> shortname org ->
  Forall (fun child =>
            match organizationItems org !! 0 with
            | Some item => isChildOf item child = false
            | None => False
            end)
         (organizationItems o).
Proof.
  intros Hfree Hne. unfold organizationItems. cbn [lookup list_lookup].
  assert (Hown : organizationsOf (shortname o)
                 <> organizationsOf (shortname org)).
  { intros H. now apply organization_inj in H. }
  repeat constructor; unfold isChildOf, isTruthyAnd, equals;
    cbn [href activeIfHrefStartsWith parentHref];
    apply orb_false_iff; split;
    try (apply andb_false_iff; right); apply eqb_false;
    auto using organizations_not_below;
    now apply organization_not_general.
Qed.

Lemma isChildOf_leaf (item child : SidebarItemData) (s : string) :
  slashFree s ->
  activeIfHrefStartsWith item = None ->
  (exists s', href item = organizationsGeneral s'
              \/ href item = organizationsMembers s') ->
  parentHref child = None
  \/ parentHref child = Some "/settings/organizations"
  \/ parentHref child = Some (organizationsOf s) ->
  isChildOf item child = false.
Proof.
  intros Hfree Hactive [s' Hhref] Hparent.
  unfold isChildOf. rewrite Hactive. cbn [isTruthyAnd].
  rewrite orb_false_r.
  destruct Hparent as [-> | [-> | ->]]; cbn [equals]; [reflexivity | |].
  - destruct Hhref as [-> | ->]; apply eqb_false, organizations_not_below.
  - destruct Hhref as [-> | ->]; apply eqb_false.
    + now apply organization_not_general.
    + now apply organization_not_members.
Qed.

Lemma leaf_no_children (item : SidebarItemData) :
  activeIfHrefStartsWith item = None ->
  (exists s', href item = organizationsGeneral s'
              \/ href item = organizationsMembers s') ->
  positionsFrom 0 (isChildOf item)
    ({| label := "Organizations";
        href := "/settings/organizations";
        activeIfHrefStartsWith := None;
        parentHref := None;
        icon := Some PeopleGroupIcon;
        children := [] |} :: flat_map organizationItems sorted)
  = [].
Proof.
  intros Hactive Hhref. apply positionsFrom_none. constructor.
  - apply (isChildOf_leaf item _ ""); simpl; auto.
  - apply (Forall_flat_map_organizationItems _
             (fun o => slashFree (shortname o))); [| apply sorted_slashFree].
    intros o Ho. cbn [organizationItems].
    repeat constructor;
      apply (isChildOf_leaf item _ (shortname o)); cbn [parentHref]; auto.
Qed.

(** X16: For organizations with distinct shortnames that hold no slash,
    the organization at the position [k] of the sorted list has its three
    items at the positions [1 + 3 * k] to [3 + 3 * k] of the menu. The
    children of the first, which carries the name of the organization,
    are the General and the Members item of that organization and no item
    of another one; the General and the Members item have no children. *)
Theorem generateMenuLinks_organization (k : nat) (org : Org) :
  sort (fun a b => localeCompare (name a) (name b)) organizations !! k
  = Some org ->
  let menu := generateMenuLinks localeCompare organizations in
  menu !! (1 + 3 * k)
  = Some {| label := name org;
            href := organizationsGeneral (shortname org);
            activeIfHrefStartsWith := Some (organizationsOf (shortname org));
            parentHref := Some "/settings/organizations";
            icon := None;
            children := [2 + 3 * k; 3 + 3 * k] |}
  /\ menu !! (2 + 3 * k)
     = Some {| label := "General";
               href := organizationsGeneral (shortname org);
               activeIfHrefStartsWith := None;
               parentHref := Some (organizationsOf (shortname org));
               icon := None;
               children := [] |}
  /\ menu !! (3 + 3 * k)
     = Some {| label := "Members";
               href := organizationsMembers (shortname org);
               activeIfHrefStartsWith := None;
               parentHref := Some (organizationsOf (shortname org));
               icon := None;
               children := [] |}.
Proof.
  fold sorted. intros Hk menu. unfold menu, generateMenuLinks. fold sorted.
  set (raw := _ :: flat_map organizationItems sorted).
  assert (Hraw : forall j, j < 3 ->
            raw !! (S j + 3 * k) = organizationItems org !! j).
  { intros j Hj. unfold raw. cbn [lookup list_lookup Nat.add].
    rewrite (Nat.add_comm j).
    now apply flat_map_organizationItems_lookup. }
  assert (Hmenu : forall j, j < 3 ->
            map (withChildren raw) raw !! (S j + 3 * k)
            = withChildren raw <$> organizationItems org !! j).
  { intros j Hj. rewrite <- Hraw by exact Hj. apply list_lookup_fmap. }
  rewrite (Hmenu 0), (Hmenu 1), (Hmenu 2) by lia.
  cbn [organizationItems lookup list_lookup fmap option_fmap option_map].
  unfold withChildren.
  cbn [label href activeIfHrefStartsWith parentHref icon].
  fold (organizationsOf (shortname org)).
  fold (organizationsGeneral (shortname org)).
  fold (organizationsMembers (shortname org)).
  split; [| split].
  - do 2 f_equal.
    pose proof (take_drop_middle _ _ _ Hk) as Hsplit.
    pose proof sorted_distinct as Hnd. pose proof sorted_slashFree as Hfree.
    assert (Hlen : length (take k sorted) = k).
    { apply length_take_le. apply lookup_lt_Some in Hk. lia. }
    revert Hnd Hfree. unfold raw. rewrite <- Hsplit.
    set (before := take k sorted) in *. set (after := drop (S k) sorted).
    intros Hnd Hfree.
    change (@map Org string) with (@fmap list _ Org string) in Hnd.
    rewrite fmap_app, fmap_cons in Hnd.
    apply NoDup_app in Hnd as (_ & Hbefore & Hnd).
    apply NoDup_cons in Hnd as [Hafter _].
    apply Forall_app in Hfree as [Hfree1 Hfree2].
    apply Forall_cons in Hfree2 as [Hfree0 Hfree2].
    assert (Hother : forall l,
              Forall (fun o => slashFree (shortname o)) l ->
              shortname org ∉ shortname <$> l ->
              forall i, positionsFrom i
                (isChildOf
                   {| label := name org;
                      href := organizationsGeneral (shortname org);
                      activeIfHrefStartsWith :=
                        Some (organizationsOf (shortname org));
                      parentHref := Some "/settings/organizations";
                      icon := None;
                      children := [] |})
                (flat_map organizationItems l) = []).
    { intros l Hl Hnot i. apply positionsFrom_none.
      apply (Forall_flat_map_organizationItems _
               (fun o => slashFree (shortname o)
                         /\ shortname o <> shortname org)).
      - intros o [Ho1 Ho2].
        apply (isChildOf_organization_other org o Ho1 Ho2).
      - rewrite Forall_forall in Hl. apply Forall_forall. intros o Ho.
        split; [now apply Hl |]. intros E. apply Hnot. rewrite <- E.
        apply list_elem_of_fmap. now exists o. }
    cbn [positionsFrom]. unfold isChildOf at 1.
    cbn [parentHref equals isTruthyAnd activeIfHrefStartsWith].
    rewrite andb_false_r. cbn [orb].
    rewrite flat_map_app. cbn [flat_map].
    rewrite !positionsFrom_app.
    rewrite (Hother before Hfree1).
    2:{ intros Hin. apply (Hbefore _ Hin). apply list_elem_of_here. }
    rewrite (Hother after Hfree2 Hafter).
    rewrite flat_map_organizationItems_length, Hlen.
    cbn [organizationItems positionsFrom app].
    unfold isChildOf, isTruthyAnd, equals.
    cbn [href activeIfHrefStartsWith parentHref].
    fold (organizationsOf (shortname org)).
    fold (organizationsGeneral (shortname org)).
    change (String.eqb "/settings/organizations"
              (organizationsGeneral (shortname org))) with false.
    change (String.eqb "/settings/organizations"
              (organizationsOf (shortname org))) with false.
    change (String.eqb (organizationsOf (shortname org)) "") with false.
    rewrite (eqb_false (organizationsOf (shortname org))
               (organizationsGeneral (shortname org))
               (organization_not_general _ _ Hfree0)).
    rewrite String.eqb_refl. reflexivity.
  - do 2 f_equal. apply leaf_no_children; [reflexivity |].
    exists (shortname org). now left.
  - do 2 f_equal. apply leaf_no_children; [reflexivity |].
    exists (shortname org). now right.
Qed.

End Generated.

Lemma breadcrumbs_of_generated_menu_witness :
  breadcrumbs 3 (generateMenuLinks compareNames [zenith; acme])
    "/settings/organizations/acme/members"
  = Some [settingsCrumb; organizationsCrumb;
          {| id := "/settings/organizations/acme/general";
             crumbHref := "/settings/organizations/acme/general";
             title := "Acme Corp" |};
          {| id := "/settings/organizations/acme/members";
             crumbHref := "/settings/organizations/acme/members";
             title := "Members" |}]
  /\ breadcrumbs 3 (generateMenuLinks compareNames [zenith; acme])
       "/settings/organizations/acme/general"
     = Some [settingsCrumb; organizationsCrumb;
             {| id := "/settings/organizations/acme/general";
                crumbHref := "/settings/organizations/acme/general";
                title := "Acme Corp" |}]
  /\ breadcrumbs 3 (generateMenuLinks compareNames [zenith; acme])
       "/settings/organizations/acme"
     = Some [settingsCrumb; organizationsCrumb;
             {| id := "/settings/organizations/acme/general";
                crumbHref := "/settings/organizations/acme/general";
                title := "Acme Corp" |}]
  /\ breadcrumbs 3 (generateMenuLinks compareNames [zenith; acme])
       "/settings/organizations"
     = Some [settingsCrumb; organizationsCrumb].
Proof.
  refine (breadcrumbs_of_generated_menu compareNames [zenith; acme]
            _ _ 3 acme _ _).
  - apply NoDup_cons. split; [| apply NoDup_singleton].
    intros H. apply list_elem_of_singleton in H. discriminate H.
  - repeat constructor; discriminate.
  - apply elem_of_cons. right. apply list_elem_of_here.
  - lia.
Defined.

Lemma generateMenuLinks_organization_witness :
  generateMenuLinks compareNames [zenith; acme] !! 4
  = Some {| label := "Zenith";
            href := "/settings/organizations/zenith/general";
            activeIfHrefStartsWith := Some "/settings/organizations/zenith";
            parentHref := Some "/settings/organizations";
            icon := None;
            children := [5; 6] |}
  /\ generateMenuLinks compareNames [zenith; acme] !! 5
     = Some {| label := "General";
               href := "/settings/organizations/zenith/general";
               activeIfHrefStartsWith := None;
               parentHref := Some "/settings/organizations/zenith";
               icon := None;
               children := [] |}
  /\ generateMenuLinks compareNames [zenith; acme] !! 6
     = Some {| label := "Members";
               href := "/settings/organizations/zenith/members";
               activeIfHrefStartsWith := None;
               parentHref := Some "/settings/organizations/zenith";
               icon := None;
               children := [] |}.
Proof.
  refine (generateMenuLinks_organization compareNames [zenith; acme]
            _ _ 1 zenith _).
  - apply NoDup_cons. split; [| apply NoDup_singleton].
    intros H. apply list_elem_of_singleton in H. discriminate H.
  - repeat constructor; discriminate.
  - reflexivity.
Defined.

End SettingsLayoutFacts.
